(** * Composite subscriptions (src/Subscription.ts) and the array producer
      (src/observable/fromArray.ts)

    A [Subscription] is a heap object with identity.  It owns an optional
    unsubscription callback and an array of child subscriptions;
    [unsubscribe] runs the callback and then every child, collecting the
    errors that were thrown into one [UnsubscriptionError].

    The methods are embedded as functions of a state-and-exception monad over
    a heap of objects.  Callbacks are code of the client: they are given by a
    table of small scripts that may call back into the three methods, so
    re-entrant calls are part of the model.  Calls whose target is only known
    at run time ([sub.unsubscribe()], the callback itself) go through a
    record of handlers; the handlers are closed by recursion on a call depth. *)

From Stdlib Require Import ZArith String.
From stdpp Require Import base option list gmap.

Local Open Scope Z_scope.
Local Open Scope list_scope.

(** ** Values *)

(** Heap addresses give objects their identity ([===] on objects). *)
Abbreviation loc := positive.

(** Names of client functions; [code] below gives their bodies. *)
Abbreviation fid := nat.

(** The JavaScript values that can reach [add] and [remove].  Numbers are
    kept up to what the code inspects: whether they are zero or NaN.
    Symbols have an identity, like objects. *)
Inductive value : Type :=
| VUndefined
| VNull
| VBool (b : bool)
| VNum (z : Z)
| VNaN
| VStr (s : string)
| VFun (f : fid)
| VObj (l : loc)
| VSymbol (n : nat).

Global Instance value_eq_dec : EqDecision value.
Proof. solve_decision. Defined.

Inductive jstype : Type :=
| TUndefined | TObject | TBoolean | TNumber | TString | TFunction | TSymbol.

Global Instance jstype_eq_dec : EqDecision jstype.
Proof. solve_decision. Defined.

(** [typeof v] *)
Definition typeof (v : value) : jstype :=
  match v with
  | VUndefined => TUndefined
  | VNull => TObject
  | VBool _ => TBoolean
  | VNum _ | VNaN => TNumber
  | VStr _ => TString
  | VFun _ => TFunction
  | VObj _ => TObject
  | VSymbol _ => TSymbol
  end.

(** [!v] is [negb (truthy v)]: the falsy values are [undefined], [null],
    [false], [0], [NaN] and the empty string. *)
Definition truthy (v : value) : bool :=
  match v with
  | VUndefined | VNull | VNaN => false
  | VBool b => b
  | VNum z => negb (z =? 0)
  | VStr s => negb (String.eqb s EmptyString)
  | VFun _ | VObj _ | VSymbol _ => true
  end.

(** [v == null] *)
Definition nullish (v : value) : bool :=
  match v with
  | VUndefined | VNull => true
  | _ => false
  end.

(** [a === b].  NaN is the one value that is not identical to itself. *)
Definition strict_eq (a b : value) : bool :=
  match a with
  | VNaN => false
  | _ => bool_decide (a = b)
  end.

(** ** Thrown values *)

(** [UserError n] stands for whatever a client callback throws itself,
    [TypeError] for a call of something that is not a function,
    [InvalidArgument v] for the [Error] built in the default branch of [add]
    (its message embeds [v]), and [UnsubscriptionError] is the class at the
    end of Subscription.ts. *)
#[warnings="-register-all"]
Inductive exn : Type :=
| UserError (n : nat)
| TypeError
| InvalidArgument (v : value)
| UnsubscriptionError (errors : list exn).

(** [err instanceof UnsubscriptionError] *)
Definition is_UnsubscriptionError (e : exn) : bool :=
  match e with
  | UnsubscriptionError _ => true
  | _ => false
  end.

(** ** Objects and the heap *)

(** The fields of a [Subscription].  [_subscriptions] is [undefined] at
    construction and [null] after [unsubscribe]; the code tests it only with
    [isArray], [||] and [if], which do not tell the two apart, so both are
    [None].  Every element that [add] pushes is an object reference.
    [_unsubscribe] is set by the constructor when a function is given.  The
    helpers [isFunction], [isArray] and [isObject] of ./util are not among
    the sources; they are taken to test what their names say, which on these
    fields is the distinction between [Some] and [None]. *)
Record Subscription : Type := mkSubscription {
  isUnsubscribed : bool;
  _unsubscribe : option fid;
  _subscriptions : option (list loc)
}.

(** Any other object that may be passed to [add]: what the code reads of it
    is the truthiness of its [isUnsubscribed] property and whether its
    [unsubscribe] property is a function. *)
Record foreign : Type := mkForeign {
  f_isUnsubscribed : bool;
  f_unsubscribe : option fid
}.

Inductive object : Type :=
| OSub (s : Subscription)
| OForeign (o : foreign).

(** One entry of the call log: client function [f] was invoked with
    [this] bound to [l].  The log is ghost state; no method reads it. *)
Record state : Type := mkState {
  heap : gmap loc object;
  log : list (loc * fid)
}.

(** [Subscription.EMPTY]: the first object allocated when the class is
    loaded, a subscription whose flag is set by hand. *)
Definition EMPTY : loc := 1%positive.

Definition empty_subscription : Subscription :=
  {| isUnsubscribed := true; _unsubscribe := None; _subscriptions := None |}.

Definition initial_state : state :=
  {| heap := {[ EMPTY := OSub empty_subscription ]}; log := [] |}.

(** The children of a node, as a list ([null] and [undefined] read as none). *)
Definition children (s : Subscription) : list loc :=
  default [] (_subscriptions s).

(** ** The monad of method bodies *)

Inductive result (A : Type) : Type :=
| Ok (a : A)
| Throw (e : exn).
Arguments Ok {A} a.
Arguments Throw {A} e.

(** A computation either stops without an answer ([None]: the call depth is
    used up, or a reference dangles) or ends in a state, normally or by a
    throw. *)
Definition M (A : Type) : Type := state -> option (state * result A).

Definition ret {A} (a : A) : M A := fun σ => Some (σ, Ok a).

Definition throw {A} (e : exn) : M A := fun σ => Some (σ, Throw e).

Definition stuck {A} : M A := fun _ => None.

Definition bind {A B} (m : M A) (k : A -> M B) : M B :=
  fun σ =>
    match m σ with
    | None => None
    | Some (σ', Ok a) => k a σ'
    | Some (σ', Throw e) => Some (σ', Throw e)
    end.

Notation "'let*' x ':=' m 'in' k" := (bind m (fun x => k))
  (at level 10, x pattern, m at level 100, k at level 200, only parsing).
Notation "m '>>' k" := (bind m (fun _ => k))
  (at level 100, k at level 200, right associativity, only parsing).

(** Modelled from the spec: [tryCatch] and [errorObject] of ./util are not
    among the sources.  The spec has the failure of a teardown or of a child
    captured and not propagated; [tryCatch m] runs [m] and hands a
    throw back as a value ([trial === errorObject], with [errorObject.e]). *)
Definition tryCatch {A} (m : M A) : M (result A) :=
  fun σ =>
    match m σ with
    | None => None
    | Some (σ', r) => Some (σ', Ok r)
    end.

Definition read (l : loc) : M object :=
  fun σ =>
    match heap σ !! l with
    | Some o => Some (σ, Ok o)
    | None => None
    end.

Definition set_object (l : loc) (o : object) (σ : state) : state :=
  {| heap := <[l := o]> (heap σ); log := log σ |}.

Definition add_event (ev : loc * fid) (σ : state) : state :=
  {| heap := heap σ; log := log σ ++ [ev] |}.

Definition write (l : loc) (o : object) : M unit :=
  fun σ => Some (set_object l o σ, Ok tt).

(** [new]: the object gets an address that is not in use. *)
Definition alloc (o : object) : M loc :=
  fun σ =>
    let l := fresh (dom (heap σ)) in
    Some (set_object l o σ, Ok l).

Definition record (ev : loc * fid) : M unit :=
  fun σ => Some (add_event ev σ, Ok tt).

(** Reading [this] inside a method of [Subscription]. *)
Definition read_sub (l : loc) : M Subscription :=
  let* o := read l in
  match o with
  | OSub s => ret s
  | OForeign _ => stuck
  end.

(** ** The methods of [Subscription] *)

(** The calls whose code is chosen at run time. *)
Record handlers : Type := mkHandlers {
  (** [sub.unsubscribe()] for an object reference [sub] *)
  call_unsubscribe : loc -> M unit;
  (** [f.call(this)] for a client function [f] *)
  call_function : fid -> loc -> M unit
}.

(** [subscriptions.indexOf(x)]: the first index whose element is identical
    to [x], or -1. *)
Fixpoint indexOf (x : value) (subs : list loc) : Z :=
  match subs with
  | [] => -1
  | y :: rest =>
      if strict_eq (VObj y) x then 0
      else let i := indexOf x rest in
           if i =? -1 then -1 else i + 1
  end.

(** [subscriptions.splice(i, 1)] *)
Definition splice1 (i : Z) (subs : list loc) : list loc :=
  take (Z.to_nat i) subs ++ drop (S (Z.to_nat i)) subs.

(** [sub.isUnsubscribed] read as a condition *)
Definition reads_unsubscribed (o : object) : bool :=
  match o with
  | OSub s => isUnsubscribed s
  | OForeign o => f_isUnsubscribed o
  end.

(** [typeof sub.unsubscribe === 'function']; for a [Subscription] this is
    the method of the class. *)
Definition has_unsubscribe (o : object) : bool :=
  match o with
  | OSub _ => true
  | OForeign o => bool_decide (is_Some (f_unsubscribe o))
  end.

(** [new Subscription(f)] *)
Definition new_Subscription (f : option fid) : Subscription :=
  {| isUnsubscribed := false; _unsubscribe := f; _subscriptions := None |}.

(** The fields after lines 52-56: the flag is set and [_subscriptions] is
    [null]; [_unsubscribe] is only read. *)
Definition unsubscribed (s : Subscription) : Subscription :=
  {| isUnsubscribed := true;
     _unsubscribe := _unsubscribe s;
     _subscriptions := None |}.

Section Methods.
Variable h : handlers.

(** Lines 58-64.  The pair is [(hasErrors, errors)]; an [errors] that is
    still [undefined] is the empty list. *)
Definition unsubscribe_own (this : loc) (_unsubscribe : option fid)
  : M (bool * list exn) :=
  match _unsubscribe with
  | Some f =>
      let* trial := tryCatch (call_function h f this) in
      match trial with
      | Throw e => ret (true, [e])
      | Ok _ => ret (false, [])
      end
  | None => ret (false, [])
  end.

(** Lines 66-87: the loop over the array that was read before the field
    was cleared.  Nothing else refers to that array, so it is the same list
    throughout, and [isObject(sub)] holds of each element, which [add] has
    put there.  A failed call of [sub.unsubscribe] is caught like a throw of
    the call itself. *)
Fixpoint unsubscribe_children (subs : list loc) (acc : bool * list exn)
  : M (bool * list exn) :=
  match subs with
  | [] => ret acc
  | sub :: rest =>
      let* trial := tryCatch (call_unsubscribe h sub) in
      match trial with
      | Throw err =>
          unsubscribe_children rest
            (true,
             match err with
             | UnsubscriptionError errors => acc.2 ++ errors
             | _ => acc.2 ++ [err]
             end)
      | Ok _ => unsubscribe_children rest acc
      end
  end.

(** [unsubscribe()], lines 44-92 *)
Definition unsubscribe (this : loc) : M unit :=
  let* s := read_sub this in
  if isUnsubscribed s then ret tt
  else
    write this (OSub (unsubscribed s)) >>
    let* acc := unsubscribe_own this (_unsubscribe s) in
    let* acc := match _subscriptions s with
                | Some subs => unsubscribe_children subs acc
                | None => ret acc
                end in
    if acc.1 then throw (UnsubscriptionError acc.2) else ret tt.

(** The body of [case 'object'], lines 111-118 *)
Definition add_object (this sub : loc) : M unit :=
  let* o := read sub in
  if reads_unsubscribed o || negb (has_unsubscribe o) then ret tt
  else
    let* s := read_sub this in
    if isUnsubscribed s then call_unsubscribe h sub
    else
      write this (OSub {| isUnsubscribed := isUnsubscribed s;
                          _unsubscribe := _unsubscribe s;
                          _subscriptions := Some (children s ++ [sub]) |}).

(** [add(subscription)], lines 94-122.  The [switch] is on
    [typeof subscription]: a function, an object, anything else.  In the
    default branch the message is built by concatenation with
    [subscription]; for a symbol that conversion to a string throws a
    [TypeError], and the [Error] is never made. *)
Definition add (this : loc) (subscription : value) : M unit :=
  if negb (truthy subscription)
     || strict_eq subscription (VObj this)
     || strict_eq subscription (VObj EMPTY)
  then ret tt
  else
    match subscription with
    | VFun f =>
        let* sub := alloc (OSub (new_Subscription (Some f))) in
        add_object this sub
    | VObj sub => add_object this sub
    | VSymbol _ => throw TypeError
    | _ => throw (InvalidArgument subscription)
    end.

(** [remove(subscription)], lines 124-144 *)
Definition remove (this : loc) (subscription : value) : M unit :=
  if nullish subscription
     || strict_eq subscription (VObj this)
     || strict_eq subscription (VObj EMPTY)
  then ret tt
  else
    let* s := read_sub this in
    match _subscriptions s with
    | Some subscriptions =>
        let subscriptionIndex := indexOf subscription subscriptions in
        if negb (subscriptionIndex =? -1) then
          write this (OSub {| isUnsubscribed := isUnsubscribed s;
                              _unsubscribe := _unsubscribe s;
                              _subscriptions :=
                                Some (splice1 subscriptionIndex subscriptions) |})
        else ret tt
    | None => ret tt
    end.
End Methods.

(** ** Client code *)

(** What a callback can do with the subscriptions it knows: call their
    methods, on itself ([this]) or on a value it closed over, and throw. *)
Inductive operand : Type :=
| Self
| Lit (v : value).

Inductive stmt : Type :=
| SUnsubscribe (o : operand)
| SAdd (o x : operand)
| SRemove (o x : operand)
| SThrow (n : nat).

Definition eval (this : loc) (o : operand) : value :=
  match o with
  | Self => VObj this
  | Lit v => v
  end.

Section Client.
(** The bodies of the client functions. *)
Variable code : fid -> list stmt.

Section Run.
Variable h : handlers.

(** [recv.unsubscribe()] *)
Definition invoke_unsubscribe (recv : value) : M unit :=
  match recv with
  | VObj l => call_unsubscribe h l
  | _ => throw TypeError
  end.

(** [recv.add(x)] and [recv.remove(x)]: only a [Subscription] has them. *)
Definition invoke_method (m : handlers -> loc -> value -> M unit)
  (recv x : value) : M unit :=
  match recv with
  | VObj l =>
      let* o := read l in
      match o with
      | OSub _ => m h l x
      | OForeign _ => throw TypeError
      end
  | _ => throw TypeError
  end.

Definition exec (this : loc) (s : stmt) : M unit :=
  match s with
  | SUnsubscribe o => invoke_unsubscribe (eval this o)
  | SAdd o x => invoke_method add (eval this o) (eval this x)
  | SRemove o x => invoke_method (fun _ => remove) (eval this o) (eval this x)
  | SThrow n => throw (UserError n)
  end.

Fixpoint run (body : list stmt) (this : loc) : M unit :=
  match body with
  | [] => ret tt
  | s :: rest => exec this s >> run rest this
  end.

(** A call of client function [f] with the given [this]. *)
Definition invoke_function (f : fid) (this : loc) : M unit :=
  record (this, f) >> run (code f) this.

(** [sub.unsubscribe()]: the method of the class for a [Subscription],
    the object's own property otherwise. *)
Definition dispatch_unsubscribe (sub : loc) : M unit :=
  let* o := read sub in
  match o with
  | OSub _ => unsubscribe h sub
  | OForeign o =>
      match f_unsubscribe o with
      | Some f => invoke_function f sub
      | None => throw TypeError
      end
  end.
End Run.

(** The handlers for calls nested at most [depth] deep. *)
Fixpoint handlers_at (depth : nat) : handlers :=
  match depth with
  | O => {| call_unsubscribe := fun _ => stuck;
            call_function := fun _ _ => stuck |}
  | S d =>
      {| call_unsubscribe := dispatch_unsubscribe (handlers_at d);
         call_function := invoke_function (handlers_at d) |}
  end.
End Client.

(** * The array producer (src/observable/fromArray.ts) *)

(** How a call of a method of the observer ends: it returns or it throws,
    and either way it may have changed what it can reach. *)
Inductive completion (W : Type) : Type :=
| Normal (w : W)
| Abrupt (w : W) (e : exn).
Arguments Normal {W} w.
Arguments Abrupt {W} w e.

(** [Observer] is imported from a module that is not among the sources.
    What [subscriber] uses of it is an interface: the property [disposed]
    and the methods [next] and [return], which are client code and may throw.
    [W] is the state of everything these methods can read or change: the
    observer itself, and also the array of the producer, which is an
    ordinary array that others can hold and change.  [isArray] is
    [Array.isArray(this.array)] and [elements] are the elements that the
    array has in a state. *)
Class Observer (W : Type) : Type := {
  isArray : W -> bool;
  elements : W -> list value;
  disposed : W -> bool;
  next : value -> W -> completion W;
  return_ : W -> completion W
}.

(** The [for] loop of lines 16-18; [n] counts the iterations that are left
    before [i < len] fails, [len] being read once.  [array[i]] is read
    from the array as it is at that moment; reading beyond its end gives
    [undefined].  A throw of [next] ends the loop and the function. *)
Fixpoint subscriber_loop {W} `{Observer W} (n i : nat) (w : W)
  : completion W :=
  match n with
  | 0%nat => Normal w
  | S n' =>
      if disposed w then Normal w
      else match next (nth i (elements w) VUndefined) w with
           | Normal w' => subscriber_loop n' (S i) w'
           | Abrupt w' e => Abrupt w' e
           end
  end.

(** [subscriber(observer)], lines 12-21 *)
Definition subscriber {W} `{Observer W} (w : W) : completion W :=
  match (if isArray w then subscriber_loop (length (elements w)) 0 w
         else Normal w) with
  | Normal w' => return_ w'
  | Abrupt w' e => Abrupt w' e
  end.

(** [next] called [k] times, on the elements read at the indices [i],
    [i + 1], ... at the time of each call, up to the first throw. *)
Fixpoint fed {W} `{Observer W} (k i : nat) (w : W) : completion W :=
  match k with
  | 0%nat => Normal w
  | S k' =>
      match next (nth i (elements w) VUndefined) w with
      | Normal w' => fed k' (S i) w'
      | Abrupt w' e => Abrupt w' e
      end
  end.

(** [next] called with each of the given values, in order, up to the first
    throw. *)
Fixpoint deliver {W} `{Observer W} (vs : list value) (w : W) : completion W :=
  match vs with
  | [] => Normal w
  | v :: rest =>
      match next v w with
      | Normal w' => deliver rest w'
      | Abrupt w' e => Abrupt w' e
      end
  end.

(** A reading of the specification that the code does not meet: some
    elements are given to the observer and completion is signalled
    afterwards. *)
Definition completes_by_return {W} `{Observer W} (w : W) : Prop :=
  exists k wk, fed k 0 w = Normal wk /\ subscriber w = return_ wk.

(** An observer for the examples.  It records the calls it gets ([Some v]
    for [next(v)], [None] for [return()]) and is disposed once it has seen
    [budget] values, if it has a budget.  According to its manner, [next]
    returns, or throws after recording, or takes the last element off the
    producer's array. *)
Inductive manner : Type :=
| Steady
| Throwing
| Shrinking.

Record recorder : Type := mkRecorder {
  habit : manner;
  items : list value;
  seen : list (option value);
  budget : option nat
}.

Definition noted (v : option value) (w : recorder) : recorder :=
  {| habit := habit w;
     items := items w;
     seen := seen w ++ [v];
     budget := match v with
               | Some _ => pred <$> budget w
               | None => budget w
               end |}.

Global Instance recorder_observer : Observer recorder := {|
  isArray _ := true;
  elements := items;
  disposed w := match budget w with
                | Some 0%nat => true
                | _ => false
                end;
  next v w := match habit w with
              | Steady => Normal (noted (Some v) w)
              | Throwing => Abrupt (noted (Some v) w) (UserError 0)
              | Shrinking =>
                  Normal {| habit := habit w;
                            items := removelast (items w);
                            seen := seen w ++ [Some v];
                            budget := pred <$> budget w |}
              end;
  return_ w := Normal (noted None w)
|}.

(** * Specifications *)

(** What every call, whatever the client code does, respects:
    - the log only grows, and no callback is started on behalf of a
      subscription that was already unsubscribed;
    - a subscription stays a subscription with the same callback; once its
      flag is set it stays set and it gains no child;
    - a subscription whose flag gets set has no child at the end;
    - the other objects are not touched. *)
Record evolves (σ σ' : state) : Prop := mkEvolves {
  ev_log : exists Δ, log σ' = log σ ++ Δ /\
             forall l s f, heap σ !! l = Some (OSub s) ->
                           isUnsubscribed s = true -> (l, f) ∉ Δ;
  ev_sub : forall l s, heap σ !! l = Some (OSub s) ->
             exists s', heap σ' !! l = Some (OSub s') /\
                        _unsubscribe s' = _unsubscribe s /\
                        (isUnsubscribed s = true ->
                         isUnsubscribed s' = true /\
                         children s' `sublist_of` children s);
  ev_closed : forall l s', heap σ' !! l = Some (OSub s') ->
                isUnsubscribed s' = true ->
                children s' = [] \/
                exists s, heap σ !! l = Some (OSub s) /\ isUnsubscribed s = true;
  ev_foreign : forall l o, heap σ !! l = Some (OForeign o) ->
                           heap σ' !! l = Some (OForeign o)
}.

(** The states that the methods produce from [initial_state]: the sentinel
    exists, a subscription whose flag is set has no child, and no
    subscription has itself or the sentinel as a child. *)
Record wf (σ : state) : Prop := mkWf {
  wf_empty : exists s, heap σ !! EMPTY = Some (OSub s) /\ isUnsubscribed s = true;
  wf_closed : forall l s, heap σ !! l = Some (OSub s) ->
                          isUnsubscribed s = true -> children s = [];
  wf_self : forall l s, heap σ !! l = Some (OSub s) -> l ∉ children s;
  wf_sentinel : forall l s, heap σ !! l = Some (OSub s) -> EMPTY ∉ children s
}.

(** The values for which [add] makes its [Error]: truthy, and neither a
    function nor an object nor a symbol. *)
Definition rejected (v : value) : bool :=
  truthy v && negb (bool_decide (typeof v = TFunction))
           && negb (bool_decide (typeof v = TObject))
           && negb (bool_decide (typeof v = TSymbol)).

(** Every [Error] of [add] inside a thrown value is about a rejected
    argument. *)
Fixpoint exn_ok (e : exn) : bool :=
  match e with
  | InvalidArgument v => rejected v
  | UnsubscriptionError errors => forallb exn_ok errors
  | _ => true
  end.

Definition result_ok {A} (r : result A) : Prop :=
  match r with
  | Ok _ => True
  | Throw e => exn_ok e = true
  end.

(** The specification shared by all calls. *)
Definition sound {A} (m : M A) : Prop :=
  forall σ σ' r, m σ = Some (σ', r) ->
    evolves σ σ' /\ (wf σ -> wf σ') /\ result_ok r.

(** A call of a client function starts with its entry in the log; the rest
    is as for every call. *)
Definition sound_call (f : fid) (this : loc) (m : M unit) : Prop :=
  forall σ σ' r, m σ = Some (σ', r) ->
    evolves (add_event (this, f) σ) σ' /\
    (wf σ -> wf σ') /\ result_ok r.

Record handlers_sound (h : handlers) : Prop := mkHandlersSound {
  hs_unsubscribe : forall l, sound (call_unsubscribe h l);
  hs_function : forall f l, sound_call f l (call_function h f l)
}.

(** What a finished call contributes to [errors]: nothing, the thrown value,
    or the elements of a thrown [UnsubscriptionError]. *)
Definition reported (r : result unit) : list exn :=
  match r with
  | Ok _ => []
  | Throw (UnsubscriptionError errors) => errors
  | Throw e => [e]
  end.

Definition failed {A} (r : result A) : bool :=
  match r with
  | Ok _ => false
  | Throw _ => true
  end.

(** [child_runs h subs σ rs σ']: starting in [σ], one call of
    [unsubscribe] on each element of [subs], in order, each from the state
    the previous one left, whether that one threw or not; [rs] are the
    outcomes and [σ'] the last state. *)
Inductive child_runs (h : handlers)
  : list loc -> state -> list (result unit) -> state -> Prop :=
| child_runs_nil σ : child_runs h [] σ [] σ
| child_runs_cons sub rest σ σ1 r rs σ' :
    call_unsubscribe h sub σ = Some (σ1, r) ->
    child_runs h rest σ1 rs σ' ->
    child_runs h (sub :: rest) σ (r :: rs) σ'.

(** The call of the node's own callback, if it has one. *)
Definition teardown_run (h : handlers) (this : loc) (f : option fid)
  (σ : state) (r : result unit) (σ' : state) : Prop :=
  match f with
  | Some f => call_function h f this σ = Some (σ', r)
  | None => σ' = σ /\ r = Ok tt
  end.

(** What the node's own callback contributes to [errors]: the thrown value
    as it is. *)
Definition own_error (r : result unit) : list exn :=
  match r with
  | Ok _ => []
  | Throw e => [e]
  end.

(** Lines 89-91 *)
Definition outcome (hasErrors : bool) (errors : list exn) : result unit :=
  if hasErrors then Throw (UnsubscriptionError errors) else Ok tt.

(** The state in which the work of [unsubscribe] starts: the node is marked
    and has lost its array; if it has a callback, that call is the next
    thing in the log. *)
Definition started (this : loc) (s : Subscription) (σ : state) : state :=
  let σ0 := set_object this (OSub (unsubscribed s)) σ in
  match _unsubscribe s with
  | Some f => add_event (this, f) σ0
  | None => σ0
  end.

(** ** Example clients *)

(** [new Subscription(f)] at top level. *)
Definition new (f : option fid) : M loc :=
  alloc (OSub (new_Subscription f)).

(** The state a client program reaches from the initial one. *)
Definition reached {A} (program : M A) : state :=
  match program initial_state with
  | Some (σ, _) => σ
  | None => initial_state
  end.

(** Client functions used in the examples: 0, 1 and 3 throw, 2 returns,
    4 unsubscribes the subscription at address 2, 5 unsubscribes [this]. *)
Definition ex_code (f : fid) : list stmt :=
  match f with
  | 0%nat => [SThrow 10]
  | 1%nat => [SThrow 11]
  | 3%nat => [SThrow 13]
  | 4%nat => [SUnsubscribe (Lit (VObj 2%positive))]
  | 5%nat => [SUnsubscribe Self]
  | _ => []
  end.

(** What a client sees of a call: the functions that were called so far,
    and how the call ended. *)
Definition observe {A} (out : option (state * result A))
  : option (list (loc * fid) * result A) :=
  match out with
  | Some (σ, r) => Some (log σ, r)
  | None => None
  end.

(** A node (address 2) with callback 0 and three children: two wrapped
    functions (1 and 2) and a node (address 5, callback 3) that has a
    wrapped function (1) as its child. *)
Definition ex_tree : state :=
  reached (let* n := new (Some 0%nat) in
           add (handlers_at ex_code 0) n (VFun 1%nat) >>
           add (handlers_at ex_code 0) n (VFun 2%nat) >>
           let* c := new (Some 3%nat) in
           add (handlers_at ex_code 0) c (VFun 1%nat) >>
           add (handlers_at ex_code 0) n (VObj c)).

(** A node (address 2) whose callback throws, and a node (address 3) whose
    callback unsubscribes the first. *)
Definition ex_nested : state :=
  reached (new (Some 0%nat) >> new (Some 4%nat)).

(** A node (address 2) whose callback unsubscribes the node itself. *)
Definition ex_reentrant : state :=
  reached (new (Some 5%nat)).

(** A reading of the specification that the code does not meet: once
    [unsubscribe] has run, the node no longer refers to its callback. *)
Definition teardown_detached (h : handlers) (N : loc) (σ : state) : Prop :=
  forall σ' r s',
    unsubscribe h N σ = Some (σ', r) ->
    heap σ' !! N = Some (OSub s') ->
    _unsubscribe s' = None.

(** No element of the list of an [UnsubscriptionError] is itself an
    [UnsubscriptionError]. *)
Definition flat (e : exn) : bool :=
  match e with
  | UnsubscriptionError errors =>
      forallb (fun e' => negb (is_UnsubscriptionError e')) errors
  | _ => true
  end.

(** ** Vocabulary of the claims *)

(** [cancel_capable P σ x l σ0]: [x] is an argument that [P.add] takes for a
    live subscription, namely the object [l] in state [σ0]: a function, for
    which [l] is the new [Subscription] around it and [σ0] is [σ] with that
    object, or an object other than [P] and [EMPTY] whose [isUnsubscribed]
    is falsy and whose [unsubscribe] is a function. *)
Inductive cancel_capable (P : loc) (σ : state)
  : value -> loc -> state -> Prop :=
| capable_function f :
    cancel_capable P σ (VFun f) (fresh (dom (heap σ)))
      (set_object (fresh (dom (heap σ))) (OSub (new_Subscription (Some f))) σ)
| capable_object l o :
    l <> P -> l <> EMPTY ->
    heap σ !! l = Some o ->
    reads_unsubscribed o = false ->
    has_unsubscribe o = true ->
    cancel_capable P σ (VObj l) l σ.

(** The three operations of a node. *)
Inductive operation : Type :=
| Unsubscribe
| Add (x : value)
| Remove (x : value).

Definition perform (h : handlers) (op : operation) (N : loc) : M unit :=
  match op with
  | Unsubscribe => unsubscribe h N
  | Add x => add h N x
  | Remove x => remove N x
  end.

Definition flag_set (σ : state) (l : loc) : Prop :=
  exists s, heap σ !! l = Some (OSub s) /\ isUnsubscribed s = true.

(** Whenever the flag is set there is no child. *)
Definition closed_childless (σ : state) : Prop :=
  forall l s, heap σ !! l = Some (OSub s) ->
              isUnsubscribed s = true -> children s = [].

(** The arguments that the specification has rejected: neither null, nor a
    callable, nor a node-like value. *)
Definition claimed_invalid (v : value) : bool :=
  negb (nullish v)
  && negb (bool_decide (typeof v = TFunction))
  && negb (bool_decide (typeof v = TObject)).

Definition raises {A} (m : M A) (σ : state) : Prop :=
  exists σ' e, m σ = Some (σ', Throw e).

(** [wf] as a test, for states that are given in full. *)
Definition wf_node (l : loc) (o : object) : bool :=
  match o with
  | OSub s =>
      (negb (isUnsubscribed s) || bool_decide (children s = []))
      && bool_decide (l ∉ children s)
      && bool_decide (EMPTY ∉ children s)
  | OForeign _ => true
  end.

Definition wfb (σ : state) : bool :=
  match heap σ !! EMPTY with
  | Some (OSub s) => isUnsubscribed s
  | _ => false
  end
  && forallb (fun lo => wf_node lo.1 lo.2) (map_to_list (heap σ)).

(** A node (address 2) with children 3, 4, 3. *)
Definition ex_duplicate : state :=
  reached (let* n := new None in
           let* c := new None in
           let* d := new None in
           add (handlers_at ex_code 0) n (VObj c) >>
           add (handlers_at ex_code 0) n (VObj d) >>
           add (handlers_at ex_code 0) n (VObj c)).

(** [le m m']: whenever [m] gives an answer, [m'] gives the same one. *)
Definition le {A} (m m' : M A) : Prop :=
  forall σ out, m σ = Some out -> m' σ = Some out.

Record refines (h h' : handlers) : Prop := mkRefines {
  rf_unsubscribe : forall l, le (call_unsubscribe h l) (call_unsubscribe h' l);
  rf_function : forall f l, le (call_function h f l) (call_function h' f l)
}.

(** ** Vocabulary of the further properties *)

(** A subscription with its array replaced. *)
Definition with_children (s : Subscription) (subs : list loc) : Subscription :=
  {| isUnsubscribed := isUnsubscribed s;
     _unsubscribe := _unsubscribe s;
     _subscriptions := Some subs |}.

(** A subscription (address 2), an object without an [unsubscribe]
    (address 3) and an unsubscribed subscription (address 4). *)
Definition ex_inert : state :=
  reached (new None >>
           alloc (OForeign {| f_isUnsubscribed := false;
                              f_unsubscribe := None |}) >>
           let* c := new None in
           unsubscribe (handlers_at ex_code 0) c).

(** A node (address 2) with children 3 and 4, and a subscription
    (address 5) that is nobody's child. *)
Definition ex_spare : state :=
  reached (let* n := new None in
           let* c := new None in
           let* d := new None in
           add (handlers_at ex_code 0) n (VObj c) >>
           add (handlers_at ex_code 0) n (VObj d) >>
           new None).

(** The functions that were called with [this] bound to [l], in the order
    of the calls. *)
Fixpoint calls_of (l : loc) (lg : list (loc * fid)) : list fid :=
  match lg with
  | [] => []
  | ev :: rest =>
      if decide (ev.1 = l) then ev.2 :: calls_of l rest else calls_of l rest
  end.

(** The calls a subscription is answerable for: its callback, once its
    flag is set. *)
Definition own_calls (s : Subscription) : list fid :=
  if isUnsubscribed s
  then match _unsubscribe s with
       | Some f => [f]
       | None => []
       end
  else [].

(** The log agrees with the flags: on behalf of a subscription exactly
    [own_calls] were made, and none on behalf of an address not yet in use. *)
Record log_ok (σ : state) : Prop := mkLogOk {
  lo_sub : forall l s, heap σ !! l = Some (OSub s) ->
                       calls_of l (log σ) = own_calls s;
  lo_free : forall l, heap σ !! l = None -> calls_of l (log σ) = []
}.

(** An [UnsubscriptionError] has a list with at least one element, and so
    have those inside it. *)
Fixpoint exn_full (e : exn) : bool :=
  match e with
  | UnsubscriptionError errors =>
      match errors with
      | [] => false
      | _ => forallb exn_full errors
      end
  | _ => true
  end.

Definition result_full {A} (r : result A) : Prop :=
  match r with
  | Ok _ => True
  | Throw e => exn_full e = true
  end.

(** The second specification shared by all calls. *)
Definition accounted {A} (m : M A) : Prop :=
  forall σ σ' r, m σ = Some (σ', r) ->
    (log_ok σ -> log_ok σ') /\ result_full r.

Definition accounted_call (f : fid) (this : loc) (m : M unit) : Prop :=
  forall σ σ' r, m σ = Some (σ', r) ->
    (log_ok (add_event (this, f) σ) -> log_ok σ') /\ result_full r.

Record handlers_accounted (h : handlers) : Prop := mkHandlersAccounted {
  ha_unsubscribe : forall l, accounted (call_unsubscribe h l);
  ha_function : forall f l, accounted_call f l (call_function h f l)
}.

(** The states a client can bring about: it starts with the class loaded,
    creates subscriptions and other objects, and calls the three methods on
    objects that exist; the callbacks are those of [code]. *)
Inductive reachable (code : fid -> list stmt) : state -> Prop :=
| reach_initial : reachable code initial_state
| reach_new σ f :
    reachable code σ ->
    reachable code
      (set_object (fresh (dom (heap σ))) (OSub (new_Subscription f)) σ)
| reach_object σ o :
    reachable code σ ->
    reachable code (set_object (fresh (dom (heap σ))) (OForeign o) σ)
| reach_perform σ depth op N σ' r :
    reachable code σ ->
    is_Some (heap σ !! N) ->
    perform (handlers_at code depth) op N σ = Some (σ', r) ->
    reachable code σ'.

(** The node of [ex_reentrant] after it was unsubscribed. *)
Definition ex_reentrant_done : state :=
  reached (let* n := new (Some 5%nat) in
           unsubscribe (handlers_at ex_code 3) n).

(** Client code that never calls back into the subscriptions: every
    statement of every function is a [throw]. *)
Definition is_throw (s : stmt) : bool :=
  match s with
  | SThrow _ => true
  | _ => false
  end.

Definition quiet (code : fid -> list stmt) : Prop :=
  forall f, forallb is_throw (code f) = true.

(** Every child is an object of the heap. *)
Definition linked (σ : state) : Prop :=
  forall l s c, heap σ !! l = Some (OSub s) -> c ∈ children s ->
                is_Some (heap σ !! c).

(** [linked] as a test, for states that are given in full. *)
Definition linkedb (σ : state) : bool :=
  forallb (fun lo => match lo.2 with
                     | OSub s =>
                         forallb (fun c => bool_decide (is_Some (heap σ !! c)))
                                 (children s)
                     | OForeign _ => true
                     end)
          (map_to_list (heap σ)).

(** The subscriptions that are not unsubscribed are all in [A]. *)
Definition open_within (A : gset loc) (σ : state) : Prop :=
  forall l s, heap σ !! l = Some (OSub s) -> isUnsubscribed s = false -> l ∈ A.

(** Functions for the examples that only throw or return. *)
Definition ex_quiet (f : fid) : list stmt :=
  match f with
  | 0%nat => [SThrow 10]
  | _ => []
  end.

(** Two subscriptions (addresses 2 and 3) that are each other's child; the
    first has a callback that throws. *)
Definition ex_cycle : state :=
  reached (let* a := new (Some 0%nat) in
           let* b := new (Some 1%nat) in
           add (handlers_at ex_quiet 0) a (VObj b) >>
           add (handlers_at ex_quiet 0) b (VObj a)).

(** The calls that [h] answers throw only values in which every
    [UnsubscriptionError] has at least one element. *)
Record throws_full (h : handlers) : Prop := mkThrowsFull {
  tf_unsubscribe : forall l σ σ' e,
    call_unsubscribe h l σ = Some (σ', Throw e) -> exn_full e = true;
  tf_function : forall f l σ σ' e,
    call_function h f l σ = Some (σ', Throw e) -> exn_full e = true
}.

(** * Reasoning about computations *)

Lemma bind_inv {A B} (m : M A) (k : A -> M B) σ σ' r :
  bind m k σ = Some (σ', r) ->
  (exists σ1 a, m σ = Some (σ1, Ok a) /\ k a σ1 = Some (σ', r))
  \/ (exists e, m σ = Some (σ', Throw e) /\ r = Throw e).
Proof.
  unfold bind. destruct (m σ) as [[σ1 [a|e]]|]; intros H.
  - left. eauto.
  - right. inversion H; subst. eauto.
  - discriminate.
Qed.

Lemma bind_Ok {A B} (m : M A) (k : A -> M B) σ σ1 a :
  m σ = Some (σ1, Ok a) -> bind m k σ = k a σ1.
Proof. intros H. unfold bind. by rewrite H. Qed.

Lemma read_inv l σ σ' r :
  read l σ = Some (σ', r) ->
  σ' = σ /\ exists o, heap σ !! l = Some o /\ r = Ok o.
Proof.
  unfold read. destruct (heap σ !! l) as [o|]; intros H; [|discriminate].
  inversion H; subst. eauto.
Qed.

Lemma read_sub_inv l σ σ' r :
  read_sub l σ = Some (σ', r) ->
  σ' = σ /\ exists s, heap σ !! l = Some (OSub s) /\ r = Ok s.
Proof.
  unfold read_sub. intros H. apply bind_inv in H as [(σ1 & o & H1 & H2)|(e & H1 & _)].
  - apply read_inv in H1 as (-> & o' & Ho & [= ->]).
    destruct o' as [s|]; [|discriminate]. inversion H2; subst. eauto.
  - apply read_inv in H1 as (_ & o' & _ & ?). discriminate.
Qed.

Lemma read_eq l σ o :
  heap σ !! l = Some o -> read l σ = Some (σ, Ok o).
Proof. intros H. unfold read. by rewrite H. Qed.

Lemma read_sub_eq l σ s :
  heap σ !! l = Some (OSub s) -> read_sub l σ = Some (σ, Ok s).
Proof. intros H. unfold read_sub, bind, read. by rewrite H. Qed.

(** ** How a state may change *)

Lemma evolves_refl σ : evolves σ σ.
Proof.
  split.
  - exists []. split; [by rewrite app_nil_r|]. intros ? ? ? _ _. apply not_elem_of_nil.
  - intros l s Hl. exists s. repeat split; auto.
  - intros l s Hl Hs. right. eauto.
  - auto.
Qed.

Lemma evolves_trans σ1 σ2 σ3 : evolves σ1 σ2 -> evolves σ2 σ3 -> evolves σ1 σ3.
Proof.
  intros [(Δ1 & L1 & N1) S1 K1 F1] [(Δ2 & L2 & N2) S2 K2 F2]. split.
  - exists (Δ1 ++ Δ2). split; [by rewrite L2, L1, app_assoc|].
    intros l s f Hl Hs. rewrite elem_of_app. intros [Hin|Hin].
    + by eapply N1.
    + destruct (S1 l s Hl) as (s' & Hl' & _ & Hc). destruct (Hc Hs) as [Hs' _].
      by eapply N2.
  - intros l s Hl. destruct (S1 l s Hl) as (s' & Hl' & Hu & Hc).
    destruct (S2 l s' Hl') as (s'' & Hl'' & Hu' & Hc').
    exists s''. split; [done|]. split; [congruence|].
    intros Hs. destruct (Hc Hs) as [Hs' Hsub]. destruct (Hc' Hs') as [Hs'' Hsub'].
    split; [done|]. by etrans.
  - intros l s3 Hl3 Hs3.
    destruct (K2 l s3 Hl3 Hs3) as [?|(s2 & Hl2 & Hs2)]; [by left|].
    destruct (K1 l s2 Hl2 Hs2) as [Hnil|?]; [|by right].
    left. destruct (S2 l s2 Hl2) as (s3' & Hl3' & _ & Hc).
    assert (s3' = s3) as -> by congruence.
    destruct (Hc Hs2) as [_ Hsub]. rewrite Hnil in Hsub.
    by apply sublist_nil_r.
  - auto.
Qed.

Global Instance evolves_preorder : PreOrder evolves.
Proof. split; [exact evolves_refl | exact evolves_trans]. Qed.

(** ** The three ways a method changes the state *)

Lemma evolves_write σ l s s' :
  heap σ !! l = Some (OSub s) ->
  _unsubscribe s' = _unsubscribe s ->
  (isUnsubscribed s = true ->
   isUnsubscribed s' = true /\ children s' `sublist_of` children s) ->
  (isUnsubscribed s' = true -> children s' = [] \/ isUnsubscribed s = true) ->
  evolves σ (set_object l (OSub s') σ).
Proof.
  intros Hl Hu Hc Hn. split; simpl.
  - exists []. split; [by rewrite app_nil_r|]. intros ? ? ? _ _. apply not_elem_of_nil.
  - intros l0 s0 Hl0. destruct (decide (l = l0)) as [<-|Hne].
    + rewrite lookup_insert_eq. assert (s0 = s) as -> by congruence.
      exists s'. done.
    + rewrite lookup_insert_ne by done. exists s0. repeat split; auto.
  - intros l0 s0. destruct (decide (l = l0)) as [<-|Hne].
    + rewrite lookup_insert_eq. intros [= <-] Hs'.
      destruct (Hn Hs'); [by left|]. right. eauto.
    + rewrite lookup_insert_ne by done. intros Hl0 Hs0. right. eauto.
  - intros l0 o Hl0. destruct (decide (l = l0)) as [<-|Hne]; [congruence|].
    by rewrite lookup_insert_ne.
Qed.

Lemma evolves_alloc σ f :
  evolves σ (set_object (fresh (dom (heap σ))) (OSub (new_Subscription f)) σ).
Proof.
  assert (Hfresh : heap σ !! fresh (dom (heap σ)) = None).
  { apply not_elem_of_dom, is_fresh. }
  split; simpl.
  - exists []. split; [by rewrite app_nil_r|]. intros ? ? ? _ _. apply not_elem_of_nil.
  - intros l s Hl. rewrite lookup_insert_ne by congruence.
    exists s. repeat split; auto.
  - intros l s. destruct (decide (fresh (dom (heap σ)) = l)) as [<-|Hne].
    + rewrite lookup_insert_eq. intros [= <-]. done.
    + rewrite lookup_insert_ne by done. intros Hl Hs. right. eauto.
  - intros l o' Hl. rewrite lookup_insert_ne by congruence. done.
Qed.

Lemma evolves_record σ l f :
  (forall s, heap σ !! l = Some (OSub s) -> isUnsubscribed s = false) ->
  evolves σ (add_event (l, f) σ).
Proof.
  intros Hl. split; simpl.
  - exists [(l, f)]. split; [done|]. intros l0 s f0 Hl0 Hs.
    rewrite list_elem_of_singleton. intros [= -> ->].
    specialize (Hl s Hl0). congruence.
  - intros l0 s Hl0. exists s. repeat split; auto.
  - intros l0 s Hl0 Hs. right. eauto.
  - auto.
Qed.

Lemma wf_log σ lg : wf σ -> wf {| heap := heap σ; log := lg |}.
Proof. intros [? ? ? ?]. by split. Qed.

Lemma wf_write σ l s s' :
  wf σ ->
  heap σ !! l = Some (OSub s) ->
  (isUnsubscribed s' = true -> children s' = []) ->
  l ∉ children s' -> EMPTY ∉ children s' ->
  (isUnsubscribed s = true -> isUnsubscribed s' = true) ->
  wf (set_object l (OSub s') σ).
Proof.
  intros [(e & He & Hec) Hc Hs Hn] Hl Hc' Hs' Hn' Hmono. split; simpl.
  - destruct (decide (l = EMPTY)) as [->|Hne].
    + rewrite lookup_insert_eq. exists s'. split; [done|].
      apply Hmono. congruence.
    + rewrite lookup_insert_ne by done. eauto.
  - intros l0 s0. destruct (decide (l = l0)) as [<-|Hne].
    + rewrite lookup_insert_eq. intros [= <-]. done.
    + rewrite lookup_insert_ne by done. apply Hc.
  - intros l0 s0. destruct (decide (l = l0)) as [<-|Hne].
    + rewrite lookup_insert_eq. intros [= <-]. done.
    + rewrite lookup_insert_ne by done. apply Hs.
  - intros l0 s0. destruct (decide (l = l0)) as [<-|Hne].
    + rewrite lookup_insert_eq. intros [= <-]. done.
    + rewrite lookup_insert_ne by done. apply Hn.
Qed.

Lemma wf_alloc σ f :
  wf σ ->
  wf (set_object (fresh (dom (heap σ))) (OSub (new_Subscription f)) σ).
Proof.
  assert (Hfresh : heap σ !! fresh (dom (heap σ)) = None).
  { apply not_elem_of_dom, is_fresh. }
  intros [(e & He & Hec) Hc Hs Hn]. split; simpl.
  - rewrite lookup_insert_ne by congruence. eauto.
  - intros l s. destruct (decide (fresh (dom (heap σ)) = l)) as [<-|Hne].
    + rewrite lookup_insert_eq. intros [= <-]. done.
    + rewrite lookup_insert_ne by done. apply Hc.
  - intros l s. destruct (decide (fresh (dom (heap σ)) = l)) as [<-|Hne].
    + rewrite lookup_insert_eq. intros [= <-]. apply not_elem_of_nil.
    + rewrite lookup_insert_ne by done. apply Hs.
  - intros l s. destruct (decide (fresh (dom (heap σ)) = l)) as [<-|Hne].
    + rewrite lookup_insert_eq. intros [= <-]. apply not_elem_of_nil.
    + rewrite lookup_insert_ne by done. apply Hn.
Qed.

Lemma wf_initial : wf initial_state.
Proof.
  split; simpl.
  - exists empty_subscription. by rewrite lookup_singleton_eq.
  - intros l s Hl _. apply lookup_singleton_Some in Hl as [_ [= <-]]. done.
  - intros l s Hl. apply lookup_singleton_Some in Hl as [_ [= <-]]. apply not_elem_of_nil.
  - intros l s Hl. apply lookup_singleton_Some in Hl as [_ [= <-]]. apply not_elem_of_nil.
Qed.

(** ** The loop of [unsubscribe] *)

Lemma child_runs_length h subs σ rs σ' :
  child_runs h subs σ rs σ' -> length rs = length subs.
Proof. induction 1; simpl; congruence. Qed.

Lemma unsubscribe_children_spec h subs acc σ σ' r :
  unsubscribe_children h subs acc σ = Some (σ', r) <->
  exists rs, child_runs h subs σ rs σ' /\
             r = Ok (acc.1 || existsb failed rs, acc.2 ++ concat (map reported rs)).
Proof.
  assert (Hacc : forall (acc : bool * list exn) (err : exn) (rs : list (result unit)),
    ((true, match err with
            | UnsubscriptionError errors => acc.2 ++ errors
            | _ => acc.2 ++ [err]
            end).1 || existsb failed rs,
     (true, match err with
            | UnsubscriptionError errors => acc.2 ++ errors
            | _ => acc.2 ++ [err]
            end).2 ++ concat (map reported rs))
    = (acc.1 || (true || existsb failed rs),
       acc.2 ++ reported (Throw err) ++ concat (map reported rs))).
  { clear. intros acc err rs. simpl. rewrite orb_true_r.
    f_equal. destruct err; simpl; by rewrite <- ?app_assoc. }
  revert acc σ r. induction subs as [|sub rest IH]; intros acc σ r; simpl.
  - split.
    + intros [= <- <-]. exists []. split; [constructor|].
      simpl. rewrite orb_false_r, app_nil_r. by destruct acc.
    + intros (rs & Hruns & ->). inversion Hruns; subst. simpl.
      rewrite orb_false_r, app_nil_r. by destruct acc.
  - unfold bind, tryCatch. split.
    + destruct (call_unsubscribe h sub σ) as [[σ1 t]|] eqn:Hcall; [|discriminate].
      destruct t as [[]|err]; intros H; apply IH in H as (rs & Hruns & ->).
      * exists (Ok tt :: rs). split; [by econstructor|]. done.
      * exists (Throw err :: rs). split; [by econstructor|].
        f_equal. apply Hacc.
    + intros (rs & Hruns & ->).
      inversion Hruns as [|? ? ? σ1 t rs' ? Hcall Hrest]; subst.
      rewrite Hcall. destruct t as [[]|err]; apply IH.
      * exists rs'. split; done.
      * exists rs'. split; [done|]. f_equal. symmetry. apply Hacc.
Qed.

(** ** [unsubscribe], phase by phase *)

Lemma unsubscribe_own_spec h this f σ σ' r :
  unsubscribe_own h this f σ = Some (σ', r) <->
  exists r0, teardown_run h this f σ r0 σ' /\ r = Ok (failed r0, own_error r0).
Proof.
  unfold unsubscribe_own, teardown_run. destruct f as [f|].
  - unfold bind, tryCatch. destruct (call_function h f this σ) as [[σ1 t]|].
    + destruct t as [[]|e]; simpl; split.
      * intros [= <- <-]. by exists (Ok tt).
      * intros (r0 & [= <- <-] & ->). done.
      * intros [= <- <-]. by exists (Throw e).
      * intros (r0 & [= <- <-] & ->). done.
    + split; [discriminate|]. intros (? & ? & _). discriminate.
  - unfold ret. split.
    + intros [= <- <-]. by exists (Ok tt).
    + intros (r0 & [-> ->] & ->). done.
Qed.

Lemma unsubscribe_closed h this s σ :
  heap σ !! this = Some (OSub s) -> isUnsubscribed s = true ->
  unsubscribe h this σ = Some (σ, Ok tt).
Proof.
  intros Hl Hs. unfold unsubscribe, bind. rewrite (read_sub_eq _ _ _ Hl).
  by rewrite Hs.
Qed.

Lemma unsubscribe_open h this s σ σ' r :
  heap σ !! this = Some (OSub s) -> isUnsubscribed s = false ->
  unsubscribe h this σ = Some (σ', r) <->
  exists σ1 r0 rs,
    teardown_run h this (_unsubscribe s)
      (set_object this (OSub (unsubscribed s)) σ) r0 σ1 /\
    child_runs h (children s) σ1 rs σ' /\
    r = outcome (failed r0 || existsb failed rs)
                (own_error r0 ++ concat (map reported rs)).
Proof.
  intros Hl Hs. unfold unsubscribe.
  unfold bind at 1. rewrite (read_sub_eq _ _ _ Hl), Hs.
  unfold bind at 1. unfold write.
  set (σ0 := set_object this (OSub (unsubscribed s)) σ).
  set (loop := fun acc : bool * list exn =>
                 match _subscriptions s with
                 | Some subs => unsubscribe_children h subs acc
                 | None => ret acc
                 end).
  assert (Hloop : forall acc τ τ' t,
    loop acc τ = Some (τ', t) <->
    exists rs, child_runs h (children s) τ rs τ' /\
      t = Ok (acc.1 || existsb failed rs, acc.2 ++ concat (map reported rs))).
  { intros acc τ τ' t. unfold loop, children.
    destruct (_subscriptions s) as [subs|]; simpl.
    - apply unsubscribe_children_spec.
    - split.
      + intros [= <- <-]. exists []. split; [constructor|]. simpl.
        rewrite orb_false_r, app_nil_r. by destruct acc.
      + intros (rs & Hruns & ->). inversion Hruns; subst. simpl.
        rewrite orb_false_r, app_nil_r. by destruct acc. }
  split.
  - intros H. apply bind_inv in H as [(σ1 & acc & Hown & H)|(e & Hown & _)].
    + apply unsubscribe_own_spec in Hown as (r0 & Hrun & [= ->]).
      apply bind_inv in H as [(σ2 & acc & Hch & H)|(e & Hch & _)].
      * apply Hloop in Hch as (rs & Hruns & [= ->]). simpl in H.
        exists σ1, r0, rs. split; [done|]. unfold outcome.
        destruct (failed r0 || existsb failed rs); inversion H; subst; done.
      * apply Hloop in Hch as (rs & _ & ?). discriminate.
    + apply unsubscribe_own_spec in Hown as (r0 & _ & ?). discriminate.
  - intros (σ1 & r0 & rs & Hrun & Hruns & ->).
    assert (Hown : unsubscribe_own h this (_unsubscribe s) σ0
                   = Some (σ1, Ok (failed r0, own_error r0))).
    { apply unsubscribe_own_spec. eauto. }
    rewrite (bind_Ok _ _ _ _ _ Hown).
    assert (Hch : loop (failed r0, own_error r0) σ1
                  = Some (σ', Ok (failed r0 || existsb failed rs,
                                  own_error r0 ++ concat (map reported rs)))).
    { apply Hloop. eauto. }
    fold (loop (failed r0, own_error r0)).
    rewrite (bind_Ok _ _ _ _ _ Hch). simpl. unfold outcome.
    by destruct (failed r0 || existsb failed rs).
Qed.

(** ** Every call respects [evolves] and [wf] *)

Lemma evolves_unsubscribe_call σ l s f :
  heap σ !! l = Some (OSub s) -> isUnsubscribed s = false ->
  evolves σ (add_event (l, f) (set_object l (OSub (unsubscribed s)) σ)).
Proof.
  intros Hl Hs. split; simpl.
  - exists [(l, f)]. split; [done|]. intros l0 s0 f0 Hl0 Hs0.
    rewrite list_elem_of_singleton. intros [= -> ->]. congruence.
  - intros l0 s0 Hl0. destruct (decide (l = l0)) as [<-|Hne].
    + rewrite lookup_insert_eq. assert (s0 = s) as -> by congruence.
      exists (unsubscribed s). repeat split; congruence.
    + rewrite lookup_insert_ne by done. exists s0. repeat split; auto.
  - intros l0 s0. destruct (decide (l = l0)) as [<-|Hne].
    + rewrite lookup_insert_eq. intros [= <-] _. by left.
    + rewrite lookup_insert_ne by done. intros Hl0 Hs0. right. eauto.
  - intros l0 o Hl0. destruct (decide (l = l0)) as [<-|Hne]; [congruence|].
    by rewrite lookup_insert_ne.
Qed.

Lemma wf_unsubscribed σ l s :
  wf σ -> heap σ !! l = Some (OSub s) ->
  wf (set_object l (OSub (unsubscribed s)) σ).
Proof.
  intros Hwf Hl. apply (wf_write σ l s); auto; simpl; apply not_elem_of_nil.
Qed.

Lemma splice1_sublist i (subs : list loc) : splice1 i subs `sublist_of` subs.
Proof. unfold splice1. rewrite <- delete_take_drop. apply sublist_delete. Qed.

Lemma reported_ok r : result_ok r -> forallb exn_ok (reported r) = true.
Proof.
  destruct r as [[]|e]; simpl; [done|]. intros He.
  destruct e as [n| |v|errors]; simpl in *; [done|done| |done].
  by rewrite He.
Qed.

Lemma own_error_ok r : result_ok r -> forallb exn_ok (own_error r) = true.
Proof. destruct r as [[]|e]; simpl; [done|]. by intros ->. Qed.

Lemma outcome_ok b errors :
  forallb exn_ok errors = true -> result_ok (outcome b errors).
Proof. by destruct b. Qed.

(** Closes the goal of a step that left the state as it was. *)
Ltac unchanged := split; [reflexivity | split; done].

Section Soundness.
Variable h : handlers.
Hypothesis Hh : handlers_sound h.

Lemma child_runs_sound subs σ rs σ' :
  child_runs h subs σ rs σ' ->
  evolves σ σ' /\ (wf σ -> wf σ') /\
  forallb exn_ok (concat (map reported rs)) = true.
Proof.
  induction 1 as [σ|sub rest σ σ1 r rs σ' Hcall _ (IHe & IHw & IHr)].
  - unchanged.
  - destruct (hs_unsubscribe h Hh sub _ _ _ Hcall) as (He & Hw & Hr).
    split; [by etrans|]. split; [auto|].
    simpl. rewrite forallb_app, IHr, reported_ok; done.
Qed.

Lemma unsubscribe_sound this : sound (unsubscribe h this).
Proof.
  intros σ σ' r H.
  assert (Hs : exists s, heap σ !! this = Some (OSub s)).
  { unfold unsubscribe in H.
    apply bind_inv in H as [(? & ? & H & _)|(? & H & _)];
      apply read_sub_inv in H as (_ & s & ? & _); eauto. }
  destruct Hs as (s & Hl). destruct (isUnsubscribed s) eqn:Hs.
  - rewrite (unsubscribe_closed _ _ _ _ Hl Hs) in H. inversion H; subst.
    unchanged.
  - destruct (proj1 (unsubscribe_open h this s σ σ' r Hl Hs) H)
      as (σ1 & r0 & rs & Hrun & Hruns & ->).
    apply child_runs_sound in Hruns as (He & Hw & Hr).
    assert (Hown : evolves σ σ1 /\ (wf σ -> wf σ1) /\ result_ok r0).
    { unfold teardown_run in Hrun. destruct (_unsubscribe s) as [f|].
      - destruct (hs_function h Hh f this _ _ _ Hrun) as (He1 & Hw1 & Hr1).
        split; [|split; [|done]].
        + etrans; [|exact He1]. by apply evolves_unsubscribe_call.
        + intros Hwf. by apply Hw1, wf_unsubscribed.
      - destruct Hrun as [-> ->]. split; [|split; [|done]].
        + apply (evolves_write σ this s); [done|done|congruence|by left].
        + intros Hwf. by apply wf_unsubscribed. }
    destruct Hown as (He1 & Hw1 & Hr1).
    split; [by etrans|]. split; [auto|].
    apply outcome_ok. by rewrite forallb_app, own_error_ok.
Qed.

Lemma add_object_sound this sub σ σ' r :
  add_object h this sub σ = Some (σ', r) ->
  evolves σ σ' /\ (this <> sub -> sub <> EMPTY -> wf σ -> wf σ') /\ result_ok r.
Proof.
  unfold add_object. intros H.
  apply bind_inv in H as [(σ1 & o & Hread & H)|(e & Hread & _)];
    apply read_inv in Hread as (-> & o' & Ho & Heq); [|discriminate].
  injection Heq as ->.
  destruct (reads_unsubscribed o' || negb (has_unsubscribe o')).
  { inversion H; subst. unchanged. }
  apply bind_inv in H as [(σ1 & s & Hread & H)|(e & Hread & _)];
    apply read_sub_inv in Hread as (-> & s' & Hs & Heq); [|discriminate].
  injection Heq as ->. destruct (isUnsubscribed s') eqn:Hflag.
  - destruct (hs_unsubscribe h Hh sub _ _ _ H) as (He & Hw & Hr). auto.
  - inversion H; subst. split; [|split; [|done]].
    + apply (evolves_write σ this s'); [done|done| |]; simpl; congruence.
    + intros Hne1 Hne2 Hwf.
      apply (wf_write σ this s'); auto; unfold children at 1; simpl.
      * congruence.
      * rewrite elem_of_app, list_elem_of_singleton.
        intros [Hin|?]; [|done]. by eapply wf_self.
      * rewrite elem_of_app, list_elem_of_singleton.
        intros [Hin|?]; [|done]. by eapply wf_sentinel.
      * congruence.
Qed.

Lemma add_sound this x σ σ' r :
  add h this x σ = Some (σ', r) ->
  evolves σ σ' /\ (is_Some (heap σ !! this) -> wf σ -> wf σ') /\ result_ok r.
Proof.
  unfold add. intros H.
  destruct (negb (truthy x)) eqn:Ht; simpl in H.
  { inversion H; subst. unchanged. }
  destruct (strict_eq x (VObj this)) eqn:Hthis; simpl in H.
  { inversion H; subst. unchanged. }
  destruct (strict_eq x (VObj EMPTY)) eqn:Hempty; simpl in H.
  { inversion H; subst. unchanged. }
  apply negb_false_iff in Ht.
  destruct x as [| |b|z| |str|f|sub|sym];
    try (inversion H; subst; split; [reflexivity | split; [done | simpl]];
         unfold rejected; simpl in *; by rewrite ?Ht).
  - (* a function *)
    apply bind_inv in H as [(σ1 & sub & Halloc & H)|(e & Halloc & _)];
      [|discriminate].
    unfold alloc in Halloc. injection Halloc as <- <-.
    apply add_object_sound in H as (He & Hw & Hr).
    split; [|split; [|done]].
    + etrans; [|exact He]. apply evolves_alloc.
    + intros [o Ho] Hwf.
      assert (Hfresh : heap σ !! fresh (dom (heap σ)) = None).
      { apply not_elem_of_dom, is_fresh. }
      apply Hw.
      * intros ->. congruence.
      * intros Heq. destruct (wf_empty _ Hwf) as (? & He' & _).
        rewrite Heq in Hfresh. congruence.
      * by apply wf_alloc.
  - (* an object *)
    apply add_object_sound in H as (He & Hw & Hr).
    split; [done|]. split; [|done]. intros _. apply Hw.
    + intros ->. unfold strict_eq in Hthis.
      by rewrite bool_decide_eq_true_2 in Hthis.
    + intros ->. unfold strict_eq in Hempty.
      by rewrite bool_decide_eq_true_2 in Hempty.
Qed.

Lemma remove_sound this x : sound (remove this x).
Proof.
  intros σ σ' r. unfold remove. intros H.
  destruct (nullish x || strict_eq x (VObj this) || strict_eq x (VObj EMPTY)).
  { inversion H; subst. unchanged. }
  apply bind_inv in H as [(σ1 & s & Hread & H)|(e & Hread & _)];
    apply read_sub_inv in Hread as (-> & s' & Hs & Heq); [|discriminate].
  injection Heq as ->.
  destruct (_subscriptions s') as [subs|] eqn:Hsubs;
    [|inversion H; subst; unchanged].
  destruct (negb (indexOf x subs =? -1));
    [|inversion H; subst; unchanged].
  inversion H; subst.
  assert (Hsub : splice1 (indexOf x subs) subs `sublist_of` children s').
  { unfold children. rewrite Hsubs. apply splice1_sublist. }
  split; [|split; [|done]].
  - apply (evolves_write σ this s'); [done|done| |]; simpl; auto.
  - intros Hwf. apply (wf_write σ this s'); auto; simpl.
    + intros Hflag. apply sublist_nil_r.
      rewrite <- (wf_closed _ Hwf _ _ Hs Hflag). done.
    + intros Hin. eapply wf_self; [done|done|]. by eapply elem_of_sublist.
    + intros Hin. eapply wf_sentinel; [done|done|]. by eapply elem_of_sublist.
Qed.
End Soundness.

Section ClientSoundness.
Variable code : fid -> list stmt.

Section Step.
Variable h : handlers.
Hypothesis Hh : handlers_sound h.

Lemma invoke_unsubscribe_sound recv : sound (invoke_unsubscribe h recv).
Proof.
  intros σ σ' r H. destruct recv; simpl in H;
    try (inversion H; subst; unchanged).
  by apply (hs_unsubscribe h Hh) in H.
Qed.

Lemma invoke_add_sound recv x : sound (invoke_method h add recv x).
Proof.
  intros σ σ' r H. destruct recv as [| | | | | | |l|]; simpl in H;
    try (inversion H; subst; unchanged).
  apply bind_inv in H as [(σ1 & o & Hread & H)|(e & Hread & _)];
    apply read_inv in Hread as (-> & o' & Ho & Heq); [|discriminate].
  injection Heq as ->. destruct o' as [s|o'].
  - apply (add_sound h Hh) in H as (He & Hw & Hr). eauto.
  - inversion H; subst. unchanged.
Qed.

Lemma invoke_remove_sound recv x :
  sound (invoke_method h (fun _ => remove) recv x).
Proof.
  intros σ σ' r H. destruct recv as [| | | | | | |l|]; simpl in H;
    try (inversion H; subst; unchanged).
  apply bind_inv in H as [(σ1 & o & Hread & H)|(e & Hread & _)];
    apply read_inv in Hread as (-> & o' & Ho & Heq); [|discriminate].
  injection Heq as ->. destruct o' as [s|o'].
  - by apply remove_sound in H.
  - inversion H; subst. unchanged.
Qed.

Lemma exec_sound this s : sound (exec h this s).
Proof.
  destruct s as [o|o x|o x|n]; simpl.
  - apply invoke_unsubscribe_sound.
  - apply invoke_add_sound.
  - apply invoke_remove_sound.
  - intros σ σ' r H. inversion H; subst. unchanged.
Qed.

Lemma run_sound body this : sound (run h body this).
Proof.
  induction body as [|s rest IH]; intros σ σ' r H; simpl in H.
  - inversion H; subst. unchanged.
  - apply bind_inv in H as [(σ1 & [] & Hs & H)|(e & Hs & ->)].
    + apply exec_sound in Hs as (He1 & Hw1 & _).
      apply IH in H as (He2 & Hw2 & Hr).
      split; [by etrans|]. split; auto.
    + by apply exec_sound in Hs.
Qed.

Lemma invoke_function_sound f this :
  sound_call f this (invoke_function code h f this).
Proof.
  intros σ σ' r H. unfold invoke_function in H.
  apply bind_inv in H as [(σ1 & [] & Hrec & H)|(e & Hrec & _)];
    [|discriminate].
  injection Hrec as <-. apply run_sound in H as (He & Hw & Hr).
  split; [done|]. split; [|done]. intros Hwf. by apply Hw, wf_log.
Qed.

Lemma dispatch_unsubscribe_sound sub :
  sound (dispatch_unsubscribe code h sub).
Proof.
  intros σ σ' r H. unfold dispatch_unsubscribe in H.
  apply bind_inv in H as [(σ1 & o & Hread & H)|(e & Hread & _)];
    apply read_inv in Hread as (-> & o' & Ho & Heq); [|discriminate].
  injection Heq as ->. destruct o' as [s|o'].
  - by apply (unsubscribe_sound h Hh) in H.
  - destruct (f_unsubscribe o') as [f|].
    + apply invoke_function_sound in H as (He & Hw & Hr).
      split; [|done]. etrans; [|exact He].
      apply evolves_record. intros s. congruence.
    + inversion H; subst. unchanged.
Qed.
End Step.

Lemma handlers_at_sound depth : handlers_sound (handlers_at code depth).
Proof.
  induction depth as [|d IH]; split; simpl.
  - intros l σ σ' r. discriminate.
  - intros f l σ σ' r. discriminate.
  - intros l. by apply dispatch_unsubscribe_sound.
  - intros f l. by apply invoke_function_sound.
Qed.
End ClientSoundness.

(** ** The first [unsubscribe] of a node *)

Lemma started_heap this s σ :
  heap (started this s σ) !! this = Some (OSub (unsubscribed s)).
Proof.
  unfold started. destruct (_unsubscribe s); simpl; apply lookup_insert_eq.
Qed.

Lemma started_log this s σ :
  log (started this s σ) =
  log σ ++ match _unsubscribe s with Some f => [(this, f)] | None => [] end.
Proof.
  unfold started. destruct (_unsubscribe s); simpl; [done|by rewrite app_nil_r].
Qed.

Lemma unsubscribe_open_evolves h this s σ σ' r :
  handlers_sound h ->
  heap σ !! this = Some (OSub s) -> isUnsubscribed s = false ->
  unsubscribe h this σ = Some (σ', r) ->
  evolves (started this s σ) σ'.
Proof.
  intros Hh Hl Hs H.
  destruct (proj1 (unsubscribe_open h this s σ σ' r Hl Hs) H)
    as (σ1 & r0 & rs & Hrun & Hruns & _).
  apply (child_runs_sound h Hh) in Hruns as (He & _ & _).
  etrans; [|exact He]. unfold started, teardown_run in *.
  destruct (_unsubscribe s) as [f|].
  - by apply (hs_function h Hh) in Hrun as (He1 & _ & _).
  - destruct Hrun as [-> _]. reflexivity.
Qed.

(** After a call that returned, the node is marked, whatever happened. *)
Lemma unsubscribe_marks h this σ σ' r :
  handlers_sound h ->
  unsubscribe h this σ = Some (σ', r) ->
  exists s', heap σ' !! this = Some (OSub s') /\ isUnsubscribed s' = true.
Proof.
  intros Hh H.
  assert (Hs : exists s, heap σ !! this = Some (OSub s)).
  { unfold unsubscribe in H.
    apply bind_inv in H as [(? & ? & H & _)|(? & H & _)];
      apply read_sub_inv in H as (_ & s & ? & _); eauto. }
  destruct Hs as (s & Hl). destruct (isUnsubscribed s) eqn:Hs.
  - rewrite (unsubscribe_closed _ _ _ _ Hl Hs) in H. inversion H; subst. eauto.
  - pose proof (unsubscribe_open_evolves _ _ _ _ _ _ Hh Hl Hs H) as He.
    destruct (ev_sub _ _ He this _ (started_heap this s σ))
      as (s' & Hl' & _ & Hc).
    exists s'. split; [done|]. by apply Hc.
Qed.

(** ** The depth bound does not change an answer *)

Lemma le_refl {A} (m : M A) : le m m.
Proof. intros σ out H. exact H. Qed.

Lemma le_bind {A B} (m m' : M A) (k k' : A -> M B) :
  le m m' -> (forall a, le (k a) (k' a)) -> le (bind m k) (bind m' k').
Proof.
  intros Hm Hk σ out. unfold bind.
  destruct (m σ) as [[σ1 [a|e]]|] eqn:E; [| |discriminate];
    rewrite (Hm _ _ E); [apply Hk|done].
Qed.

Lemma le_tryCatch {A} (m m' : M A) : le m m' -> le (tryCatch m) (tryCatch m').
Proof.
  intros Hm σ out. unfold tryCatch.
  destruct (m σ) as [[σ1 r]|] eqn:E; [|discriminate]. by rewrite (Hm _ _ E).
Qed.

Section Refinement.
Variables h h' : handlers.
Hypothesis Hle : refines h h'.

Lemma unsubscribe_children_le subs acc :
  le (unsubscribe_children h subs acc) (unsubscribe_children h' subs acc).
Proof.
  revert acc. induction subs as [|sub rest IH]; intros acc; simpl.
  - apply le_refl.
  - apply le_bind; [apply le_tryCatch, (rf_unsubscribe _ _ Hle)|].
    intros [[]|err]; apply IH.
Qed.

Lemma unsubscribe_le this : le (unsubscribe h this) (unsubscribe h' this).
Proof.
  unfold unsubscribe. apply le_bind; [apply le_refl|]. intros s.
  destruct (isUnsubscribed s); [apply le_refl|].
  apply le_bind; [apply le_refl|]. intros _.
  apply le_bind.
  - unfold unsubscribe_own. destruct (_unsubscribe s) as [f|]; [|apply le_refl].
    apply le_bind; [apply le_tryCatch, (rf_function _ _ Hle)|].
    intros t. apply le_refl.
  - intros acc. apply le_bind; [|intros acc'; apply le_refl].
    destruct (_subscriptions s); [apply unsubscribe_children_le|apply le_refl].
Qed.

Lemma add_object_le this sub : le (add_object h this sub) (add_object h' this sub).
Proof.
  unfold add_object. apply le_bind; [apply le_refl|]. intros o.
  destruct (reads_unsubscribed o || negb (has_unsubscribe o)); [apply le_refl|].
  apply le_bind; [apply le_refl|]. intros s.
  destruct (isUnsubscribed s); [apply (rf_unsubscribe _ _ Hle)|apply le_refl].
Qed.

Lemma add_le this x : le (add h this x) (add h' this x).
Proof.
  unfold add.
  destruct (negb (truthy x) || strict_eq x (VObj this) || strict_eq x (VObj EMPTY));
    [apply le_refl|].
  destruct x; try apply le_refl.
  - apply le_bind; [apply le_refl|]. intros sub. apply add_object_le.
  - apply add_object_le.
Qed.

Lemma exec_le this s : le (exec h this s) (exec h' this s).
Proof.
  destruct s as [o|o x|o x|n]; simpl; try apply le_refl.
  - unfold invoke_unsubscribe. destruct (eval this o); try apply le_refl.
    apply (rf_unsubscribe _ _ Hle).
  - unfold invoke_method. destruct (eval this o); try apply le_refl.
    apply le_bind; [apply le_refl|]. intros [s|o']; [apply add_le|apply le_refl].
Qed.

Lemma run_le body this : le (run h body this) (run h' body this).
Proof.
  induction body as [|s rest IH]; simpl; [apply le_refl|].
  apply le_bind; [apply exec_le|]. intros _. apply IH.
Qed.
End Refinement.

Lemma handlers_at_step code depth :
  refines (handlers_at code depth) (handlers_at code (S depth)).
Proof.
  induction depth as [|d IH].
  - split; intros; intros σ out; discriminate.
  - split.
    + intros l. simpl. unfold dispatch_unsubscribe.
      apply le_bind; [apply le_refl|]. intros [s|o].
      * by apply unsubscribe_le.
      * destruct (f_unsubscribe o) as [f|]; [|apply le_refl].
        unfold invoke_function. apply le_bind; [apply le_refl|].
        intros _. by apply run_le.
    + intros f l. simpl. unfold invoke_function.
      apply le_bind; [apply le_refl|]. intros _. by apply run_le.
Qed.

Lemma handlers_at_le code d d' :
  (d <= d')%nat -> refines (handlers_at code d) (handlers_at code d').
Proof.
  induction 1 as [|d' _ IH].
  - split; intros; apply le_refl.
  - pose proof (handlers_at_step code d') as Hstep.
    split; intros; intros σ out Hd.
    + by apply (rf_unsubscribe _ _ Hstep), (rf_unsubscribe _ _ IH).
    + by apply (rf_function _ _ Hstep), (rf_function _ _ IH).
Qed.

(** An answer obtained with some bound on the depth of nested calls is the
    answer with every larger bound. *)
Lemma perform_depth code d d' op N :
  (d <= d')%nat ->
  le (perform (handlers_at code d) op N) (perform (handlers_at code d') op N).
Proof.
  intros Hd. pose proof (handlers_at_le code d d' Hd) as Hle.
  destruct op; simpl.
  - by apply unsubscribe_le.
  - by apply add_le.
  - apply le_refl.
Qed.

(** The operations lead from well-formed states to well-formed states. *)
Lemma perform_wf code depth op N σ σ' r :
  is_Some (heap σ !! N) -> wf σ ->
  perform (handlers_at code depth) op N σ = Some (σ', r) -> wf σ'.
Proof.
  intros HN Hwf H. pose proof (handlers_at_sound code depth) as Hh.
  destruct op as [|x|x]; simpl in H.
  - apply (unsubscribe_sound _ Hh) in H as (_ & Hw & _). auto.
  - apply (add_sound _ Hh) in H as (_ & Hw & _). auto.
  - apply remove_sound in H as (_ & Hw & _). auto.
Qed.

(** ** The scenarios of the specification, run *)

(** Every callback of the tree is called once, the node's own first and then
    the children's in the order they were added; what was thrown is
    collected in that order. *)
Example ex_tree_unsubscribe :
  observe (unsubscribe (handlers_at ex_code 3) 2%positive ex_tree)
  = Some ([(2%positive, 0%nat); (3%positive, 1%nat); (4%positive, 2%nat);
           (5%positive, 3%nat); (6%positive, 1%nat)],
          Throw (UnsubscriptionError
                   [UserError 10; UserError 11; UserError 13; UserError 11])).
Proof. vm_compute. reflexivity. Qed.

(** A callback that unsubscribes its own node is called once. *)
Example ex_reentrant_unsubscribe :
  observe (unsubscribe (handlers_at ex_code 3) 2%positive ex_reentrant)
  = Some ([(2%positive, 5%nat)], Ok tt).
Proof. vm_compute. reflexivity. Qed.

(** With too small a bound on the depth there is no answer. *)
Example ex_tree_depth :
  unsubscribe (handlers_at ex_code 1) 2%positive ex_tree = None.
Proof. vm_compute. reflexivity. Qed.

(** * The claims *)

(** C1.  Let node [N] be a subscription with children [children s].
    If [N] is not yet unsubscribed, [N.unsubscribe()] returns exactly when
    the call of [N]'s own callback returns and then one call of
    [unsubscribe] for each element of the array returns, in the order of the
    array and each from the state left by the one before, whether or not an
    earlier one threw ([child_runs]: one outcome per element).  The call then
    succeeds if none of them threw, and otherwise throws an
    [UnsubscriptionError] whose list is the value thrown by the own
    callback, if any, followed by what each child reported, in the order of
    the children: the elements of the child's [UnsubscriptionError], or the
    thrown value itself.  If [N] is unsubscribed already, and so has no
    child, the call succeeds at once. *)
Theorem unsubscribe_runs_every_child (h : handlers) (N : loc)
  (s : Subscription) (σ : state) :
  heap σ !! N = Some (OSub s) ->
  (isUnsubscribed s = false ->
   forall σ' r,
     unsubscribe h N σ = Some (σ', r) <->
     exists σ1 r0 rs,
       teardown_run h N (_unsubscribe s)
         (set_object N (OSub (unsubscribed s)) σ) r0 σ1 /\
       child_runs h (children s) σ1 rs σ' /\
       length rs = length (children s) /\
       r = (if failed r0 || existsb failed rs
            then Throw (UnsubscriptionError
                          (own_error r0 ++ concat (map reported rs)))
            else Ok tt)) /\
  (isUnsubscribed s = true -> children s = [] ->
   unsubscribe h N σ = Some (σ, Ok tt)).
Proof.
  intros Hl. split.
  - intros Hs σ' r. rewrite (unsubscribe_open h N s σ σ' r Hl Hs). split.
    + intros (σ1 & r0 & rs & Hrun & Hruns & ->).
      exists σ1, r0, rs. repeat split; try done.
      by eapply child_runs_length.
    + intros (σ1 & r0 & rs & Hrun & Hruns & _ & ->).
      exists σ1, r0, rs. done.
  - intros Hs _. by eapply unsubscribe_closed.
Qed.

Lemma unsubscribe_runs_every_child_witness :
  exists σ' σ1 r0 rs,
    teardown_run (handlers_at ex_code 3) 2%positive (Some 0%nat)
      (set_object 2%positive
         (OSub (unsubscribed
                  {| isUnsubscribed := false; _unsubscribe := Some 0%nat;
                     _subscriptions := Some [3; 4; 5]%positive |})) ex_tree)
      r0 σ1 /\
    child_runs (handlers_at ex_code 3) [3; 4; 5]%positive σ1 rs σ' /\
    length rs = 3%nat /\
    Throw (UnsubscriptionError
             [UserError 10; UserError 11; UserError 13; UserError 11]) =
    (if failed r0 || existsb failed rs
     then Throw (UnsubscriptionError
                   (own_error r0 ++ concat (map reported rs)))
     else Ok tt).
Proof.
  destruct (unsubscribe (handlers_at ex_code 3) 2%positive ex_tree)
    as [[σ' r]|] eqn:H; [|vm_compute in H; discriminate].
  assert (Hr : r = Throw (UnsubscriptionError
             [UserError 10; UserError 11; UserError 13; UserError 11])).
  { vm_compute in H. congruence. }
  subst r. exists σ'.
  exact (proj1 (proj1 (unsubscribe_runs_every_child (handlers_at ex_code 3)
                         2%positive
                         {| isUnsubscribed := false; _unsubscribe := Some 0%nat;
                            _subscriptions := Some [3; 4; 5]%positive |}
                         ex_tree eq_refl) eq_refl σ' _) H).
Defined.

(** C2.  Once a call of [N.unsubscribe()] has returned, normally or by a
    throw, another call does nothing and succeeds: it returns normally in
    the same state, so no callback is run (the log is part of the state),
    and this needs no nested call at all. *)
Theorem unsubscribe_twice (code : fid -> list stmt) (depth : nat) (N : loc)
  (σ σ' : state) (r : result unit) :
  unsubscribe (handlers_at code depth) N σ = Some (σ', r) ->
  forall h', unsubscribe h' N σ' = Some (σ', Ok tt).
Proof.
  intros H h'.
  destruct (unsubscribe_marks _ _ _ _ _ (handlers_at_sound code depth) H)
    as (s' & Hl & Hs).
  by eapply unsubscribe_closed.
Qed.

Lemma unsubscribe_twice_witness :
  exists σ' r,
    unsubscribe (handlers_at ex_code 3) 2%positive ex_tree = Some (σ', r) /\
    unsubscribe (handlers_at ex_code 0) 2%positive σ' = Some (σ', Ok tt).
Proof.
  destruct (unsubscribe (handlers_at ex_code 3) 2%positive ex_tree)
    as [[σ' r]|] eqn:H; [|vm_compute in H; discriminate].
  exists σ', r. split; [reflexivity|].
  exact (unsubscribe_twice ex_code 3 2%positive ex_tree σ' r H
           (handlers_at ex_code 0)).
Defined.

(** C3, at the input where the code departs from it: the callback of the
    node at address 3 unsubscribes the node at address 2, whose callback
    throws.  The callback of 3 so ends with the [UnsubscriptionError] of 2,
    and [unsubscribe] puts that value into its list as it is (line 62),
    where the loop over the children would have taken its elements
    (lines 79-80). *)
Theorem own_teardown_error_not_flattened :
  exists σ',
    unsubscribe (handlers_at ex_code 3) 3%positive ex_nested =
    Some (σ', Throw (UnsubscriptionError
                       [UnsubscriptionError [UserError 10]])) /\
    flat (UnsubscriptionError [UnsubscriptionError [UserError 10]]) = false.
Proof.
  destruct (unsubscribe (handlers_at ex_code 3) 3%positive ex_nested)
    as [[σ' r]|] eqn:H; [|vm_compute in H; discriminate].
  exists σ'. split; [|reflexivity].
  vm_compute in H. congruence.
Qed.

(** C4, as the code has it.  Let [N] be a subscription that is not yet
    unsubscribed and has callback [f], and let [σ0] be the state in which
    [N] has its flag set and no array of children, while its field
    [_unsubscribe] still holds [f].  When [N.unsubscribe()] returns,
    - the run went through [σ0]: the body of [f] was run from [σ0] (with the
      call entered in the log), the children that [N] had before were then
      unsubscribed one after the other from the state the body left, and
      the outcome of the call is made of the outcomes of these;
    - from the start of the body on, in every state the computation can be
      in, [N] has its flag set and no children, and [N.unsubscribe()]
      returns at once and changes nothing; the states after the body and at
      the end are such states;
    - the log shows one call of a function on behalf of [N], the call of
      [f], made before any other call. *)
Theorem unsubscribe_marks_before_teardown (code : fid -> list stmt)
  (depth : nat) (N : loc) (s : Subscription) (f : fid)
  (σ σ' : state) (r : result unit) :
  heap σ !! N = Some (OSub s) ->
  isUnsubscribed s = false ->
  _unsubscribe s = Some f ->
  unsubscribe (handlers_at code depth) N σ = Some (σ', r) ->
  let σ0 := set_object N (OSub (unsubscribed s)) σ in
  (exists d σ1 r0 rs,
     depth = S d /\
     run (handlers_at code d) (code f) N (add_event (N, f) σ0)
     = Some (σ1, r0) /\
     child_runs (handlers_at code depth) (children s) σ1 rs σ' /\
     r = (if failed r0 || existsb failed rs
          then Throw (UnsubscriptionError
                        (own_error r0 ++ concat (map reported rs)))
          else Ok tt) /\
     evolves (add_event (N, f) σ0) σ1 /\ evolves σ1 σ') /\
  (exists σ1 r0, call_function (handlers_at code depth) f N σ0 = Some (σ1, r0)) /\
  heap σ0 !! N = Some (OSub {| isUnsubscribed := true;
                               _unsubscribe := Some f;
                               _subscriptions := None |}) /\
  (forall τ h', evolves (add_event (N, f) σ0) τ ->
                (exists s', heap τ !! N = Some (OSub s') /\
                            isUnsubscribed s' = true /\ children s' = []) /\
                unsubscribe h' N τ = Some (τ, Ok tt)) /\
  (exists Δ, log σ' = log σ ++ (N, f) :: Δ /\ forall g, (N, g) ∉ Δ).
Proof.
  intros Hl Hs Hf H σ0.
  pose proof (handlers_at_sound code depth) as Hh.
  assert (Hl0 : heap σ0 !! N = Some (OSub (unsubscribed s))).
  { apply lookup_insert_eq. }
  destruct (proj1 (unsubscribe_open _ N s σ σ' r Hl Hs) H)
    as (σ1 & r0 & rs & Hrun & Hruns & Hr).
  rewrite Hf in Hrun. simpl in Hrun.
  split; [|split; [|split; [|split]]].
  - destruct depth as [|d]; [discriminate|].
    exists d, σ1, r0, rs. split; [done|].
    destruct (hs_function _ Hh f N _ _ _ Hrun) as (He1 & _ & _).
    destruct (child_runs_sound _ Hh _ _ _ _ Hruns) as (He2 & _ & _).
    simpl in Hrun. unfold invoke_function in Hrun.
    rewrite (bind_Ok _ _ σ0 (add_event (N, f) σ0) tt eq_refl) in Hrun.
    done.
  - eauto.
  - rewrite Hl0. unfold unsubscribed. by rewrite Hf.
  - intros τ h' He.
    destruct (ev_sub _ _ He N (unsubscribed s) Hl0) as (s' & Hl' & _ & Hc).
    destruct Hc as [Hs' Hsub]; [done|].
    split; [|by eapply unsubscribe_closed].
    exists s'. split; [done|]. split; [done|]. by apply sublist_nil_r.
  - pose proof (unsubscribe_open_evolves _ _ _ _ _ _ Hh Hl Hs H) as He.
    destruct (ev_log _ _ He) as (Δ & HΔ & Hno).
    rewrite started_log, Hf in HΔ. exists Δ. split.
    + rewrite HΔ. by rewrite <- app_assoc.
    + intros g. eapply Hno; [apply started_heap|done].
Qed.

Lemma unsubscribe_marks_before_teardown_witness :
  exists σ' Δ,
    log σ' = log ex_reentrant ++ (2%positive, 5%nat) :: Δ /\
    forall g, (2%positive, g) ∉ Δ.
Proof.
  destruct (unsubscribe (handlers_at ex_code 3) 2%positive ex_reentrant)
    as [[σ' r]|] eqn:H; [|vm_compute in H; discriminate].
  exists σ'.
  exact (proj2 (proj2 (proj2 (proj2
    (unsubscribe_marks_before_teardown ex_code 3 2%positive
       (new_Subscription (Some 5%nat)) 5%nat ex_reentrant σ' r
       eq_refl eq_refl eq_refl H))))).
Defined.

(** The callback of the node at address 2 removes the node's child from the
    node.  The array is gone by then, so the call of [remove] finds nothing
    and the child (address 3, whose callback throws) is unsubscribed all the
    same. *)
Example remove_in_callback_is_too_late :
  observe
    (unsubscribe
       (handlers_at (fun f => match f with
                              | 0%nat => [SRemove Self (Lit (VObj 3%positive))]
                              | _ => [SThrow 11]
                              end) 3)
       2%positive
       (reached (let* n := new (Some 0%nat) in
                 add (handlers_at ex_code 0) n (VFun 1%nat))))
  = Some ([(2%positive, 0%nat); (3%positive, 1%nat)],
          Throw (UnsubscriptionError [UserError 11])).
Proof. vm_compute. reflexivity. Qed.

Lemma teardown_detached_counterexample :
  ~ teardown_detached (handlers_at ex_code 3) 2%positive ex_reentrant.
Proof.
  intros Hclaim.
  destruct (unsubscribe (handlers_at ex_code 3) 2%positive ex_reentrant)
    as [[σ' r]|] eqn:H; [|vm_compute in H; discriminate].
  specialize (Hclaim σ' r (unsubscribed (new_Subscription (Some 5%nat))) H).
  assert (Hσ : heap σ' !! 2%positive
               = Some (OSub (unsubscribed (new_Subscription (Some 5%nat))))).
  { vm_compute in H. injection H as <- _. reflexivity. }
  specialize (Hclaim Hσ). discriminate.
Qed.

(** C5.  Let [P] be a subscription whose flag is set and [x] a function, or
    an object other than [P] and [EMPTY] that is not unsubscribed and has an
    [unsubscribe] function.  Then [P.add(x)] is the call of [unsubscribe] on
    [x] (on the new subscription around [x], for a function): it returns
    exactly when that call returns, in the same state and with the same
    outcome.  When it has returned, [P] still has its flag set and its
    children are among those it had, in their order: nothing was appended. *)
Theorem add_to_unsubscribed_parent (code : fid -> list stmt) (depth : nat)
  (P : loc) (sP : Subscription) (x : value) (l : loc) (σ σ0 : state) :
  heap σ !! P = Some (OSub sP) ->
  isUnsubscribed sP = true ->
  cancel_capable P σ x l σ0 ->
  add (handlers_at code depth) P x σ
  = call_unsubscribe (handlers_at code depth) l σ0 /\
  forall σ' r,
    add (handlers_at code depth) P x σ = Some (σ', r) ->
    exists sP', heap σ' !! P = Some (OSub sP') /\
                isUnsubscribed sP' = true /\
                children sP' `sublist_of` children sP.
Proof.
  intros HP HsP Hx.
  assert (Hobj : forall h l o τ,
    heap τ !! l = Some o -> reads_unsubscribed o = false ->
    has_unsubscribe o = true -> heap τ !! P = Some (OSub sP) ->
    add_object h P l τ = call_unsubscribe h l τ).
  { intros h l' o τ Hl Hro Hho HP'. unfold add_object.
    rewrite (bind_Ok _ _ _ _ _ (read_eq _ _ _ Hl)), Hro, Hho. simpl.
    rewrite (bind_Ok _ _ _ _ _ (read_sub_eq _ _ _ HP')). by rewrite HsP. }
  split.
  - destruct Hx as [f|l o Hne1 Hne2 Hl Hro Hho]; unfold add; simpl.
    + set (l := fresh (dom (heap σ))).
      assert (Hfresh : heap σ !! l = None) by apply not_elem_of_dom, is_fresh.
      unfold bind at 1. unfold alloc. fold l.
      apply (Hobj _ l (OSub (new_Subscription (Some f)))); simpl; try done.
      * apply lookup_insert_eq.
      * rewrite lookup_insert_ne by congruence. done.
    + unfold strict_eq. rewrite !bool_decide_eq_false_2 by congruence. simpl.
      by apply (Hobj _ l o).
  - intros σ' r H.
    destruct (add_sound _ (handlers_at_sound code depth) _ _ _ _ _ H)
      as (He & _ & _).
    destruct (ev_sub _ _ He P sP HP) as (sP' & HP' & _ & Hc).
    exists sP'. split; [done|]. by apply Hc.
Qed.

Lemma add_to_unsubscribed_parent_witness :
  add (handlers_at ex_code 2) EMPTY (VFun 1%nat) initial_state
  = call_unsubscribe (handlers_at ex_code 2) (fresh (dom (heap initial_state)))
      (set_object (fresh (dom (heap initial_state)))
         (OSub (new_Subscription (Some 1%nat))) initial_state).
Proof.
  exact (proj1 (add_to_unsubscribed_parent ex_code 2 EMPTY empty_subscription
                  (VFun 1%nat) _ initial_state _ eq_refl eq_refl
                  (capable_function EMPTY initial_state 1%nat))).
Defined.

Lemma evolves_closed_childless σ σ' :
  evolves σ σ' -> closed_childless σ -> closed_childless σ'.
Proof.
  intros He Hc l s' Hl' Hs'.
  destruct (ev_closed _ _ He l s' Hl' Hs') as [?|(s & Hl & Hs)]; [done|].
  destruct (ev_sub _ _ He l s Hl) as (s'' & Hl'' & _ & Hsub).
  assert (s'' = s') as -> by congruence.
  destruct (Hsub Hs) as [_ Hsub']. rewrite (Hc l s Hl Hs) in Hsub'.
  by apply sublist_nil_r.
Qed.

(** C6.  Whenever [unsubscribe], [add] or [remove] returns, normally or by
    a throw and whatever the callbacks did meanwhile: every flag that was
    set is still set; if no subscription with its flag set had a child
    before, none has one after; and the children of a subscription whose
    flag was set are among those it had. *)
Theorem operations_keep_closed_childless (code : fid -> list stmt)
  (depth : nat) (op : operation) (N : loc) (σ σ' : state) (r : result unit) :
  perform (handlers_at code depth) op N σ = Some (σ', r) ->
  (forall l, flag_set σ l -> flag_set σ' l) /\
  (closed_childless σ -> closed_childless σ') /\
  (forall l s s', heap σ !! l = Some (OSub s) -> isUnsubscribed s = true ->
                  heap σ' !! l = Some (OSub s') ->
                  children s' `sublist_of` children s).
Proof.
  intros H.
  pose proof (handlers_at_sound code depth) as Hh.
  assert (He : evolves σ σ').
  { destruct op as [|x|x]; simpl in H.
    - by apply (unsubscribe_sound _ Hh) in H as (? & _ & _).
    - by apply (add_sound _ Hh) in H as (? & _ & _).
    - by apply remove_sound in H as (? & _ & _). }
  split; [|split].
  - intros l (s & Hl & Hs).
    destruct (ev_sub _ _ He l s Hl) as (s' & Hl' & _ & Hc).
    exists s'. split; [done|]. by apply Hc.
  - by apply evolves_closed_childless.
  - intros l s s' Hl Hs Hl'.
    destruct (ev_sub _ _ He l s Hl) as (s'' & Hl'' & _ & Hc).
    assert (s'' = s') as -> by congruence. by apply Hc.
Qed.

Lemma operations_keep_closed_childless_witness :
  exists σ', forall l, flag_set ex_tree l -> flag_set σ' l.
Proof.
  destruct (perform (handlers_at ex_code 3) Unsubscribe 2%positive ex_tree)
    as [[σ' r]|] eqn:H; [|vm_compute in H; discriminate].
  exists σ'.
  exact (proj1 (operations_keep_closed_childless ex_code 3 Unsubscribe
                  2%positive ex_tree σ' r H)).
Defined.

(** ** The guard and the default branch of [add] *)

Lemma add_falsy h N x σ :
  truthy x = false -> add h N x σ = Some (σ, Ok tt).
Proof. intros Hx. unfold add. by rewrite Hx. Qed.

Lemma rejected_inv x :
  rejected x = true ->
  truthy x = true /\ forall l, strict_eq x (VObj l) = false.
Proof.
  unfold rejected, strict_eq. intros H.
  destruct x; try discriminate; split;
    try (intros l; by apply bool_decide_eq_false_2);
    by rewrite !andb_true_r in H.
Qed.

Lemma add_rejected h N x σ :
  rejected x = true -> add h N x σ = Some (σ, Throw (InvalidArgument x)).
Proof.
  intros Hx. destruct (rejected_inv x Hx) as [Ht Hne].
  unfold add. rewrite Ht, !Hne. simpl.
  by destruct x.
Qed.

Lemma add_object_throws h N sub σ σ' e :
  add_object h N sub σ = Some (σ', Throw e) ->
  exists o sN,
    heap σ !! sub = Some o /\
    reads_unsubscribed o = false /\ has_unsubscribe o = true /\
    heap σ !! N = Some (OSub sN) /\ isUnsubscribed sN = true /\
    call_unsubscribe h sub σ = Some (σ', Throw e).
Proof.
  unfold add_object. intros H.
  apply bind_inv in H as [(σ1 & o & Hread & H)|(e' & Hread & _)];
    apply read_inv in Hread as (-> & o' & Ho & Heq); [|discriminate].
  injection Heq as ->.
  destruct (reads_unsubscribed o') eqn:Hro; [discriminate|].
  destruct (has_unsubscribe o') eqn:Hho; [|discriminate]. simpl in H.
  apply bind_inv in H as [(σ1 & s & Hread & H)|(e' & Hread & _)];
    apply read_sub_inv in Hread as (-> & s' & Hs & Heq); [|discriminate].
  injection Heq as ->. destruct (isUnsubscribed s') eqn:Hflag; [|discriminate].
  exists o', s'. done.
Qed.

Lemma add_closed_parent h P sP x l σ σ0 :
  heap σ !! P = Some (OSub sP) -> isUnsubscribed sP = true ->
  cancel_capable P σ x l σ0 ->
  add h P x σ = call_unsubscribe h l σ0.
Proof.
  intros HP HsP Hx.
  assert (Hobj : forall sub o τ,
    heap τ !! sub = Some o -> reads_unsubscribed o = false ->
    has_unsubscribe o = true -> heap τ !! P = Some (OSub sP) ->
    add_object h P sub τ = call_unsubscribe h sub τ).
  { intros sub o τ Hl Hro Hho HP'. unfold add_object.
    rewrite (bind_Ok _ _ _ _ _ (read_eq _ _ _ Hl)), Hro, Hho. simpl.
    rewrite (bind_Ok _ _ _ _ _ (read_sub_eq _ _ _ HP')). by rewrite HsP. }
  destruct Hx as [f|l o Hne1 Hne2 Hl Hro Hho]; unfold add; simpl.
  - set (l := fresh (dom (heap σ))).
    assert (Hfresh : heap σ !! l = None) by apply not_elem_of_dom, is_fresh.
    unfold bind at 1. unfold alloc. fold l.
    apply (Hobj l (OSub (new_Subscription (Some f)))); simpl; try done.
    + apply lookup_insert_eq.
    + rewrite lookup_insert_ne by congruence. done.
  - unfold strict_eq. rewrite !bool_decide_eq_false_2 by congruence. simpl.
    by apply (Hobj l o).
Qed.

(** C7, as the code decides it.  [N.add(x)] ends by a throw in exactly three
    cases.  (1) [x] is truthy and is neither a function nor an object nor a
    symbol: [add] throws the [Error] of its default branch, about [x], at
    once and in the state it was called in.  (2) [x] is a symbol: building
    the message throws a [TypeError], again with nothing changed.  (3) [N]
    is unsubscribed already and [x] is a function, or a live object with an
    [unsubscribe] function other than [N] and [EMPTY], and the call of
    [unsubscribe] that [add] then makes on it throws: [add] ends with that
    state and that thrown value, whatever it is.  Every falsy [x]
    ([undefined], [false], [0], [NaN] and the empty string as well as
    [null]) makes [add] return normally with nothing changed, and a function
    or an object that exists, added to a subscription that is not
    unsubscribed, makes [add] return normally. *)
Theorem add_raises_exactly (h : handlers) (N : loc) (x : value) (σ : state) :
  (forall σ' e,
     add h N x σ = Some (σ', Throw e) <->
     (rejected x = true /\ e = InvalidArgument x /\ σ' = σ) \/
     (typeof x = TSymbol /\ e = TypeError /\ σ' = σ) \/
     (exists sN l σ0,
        heap σ !! N = Some (OSub sN) /\ isUnsubscribed sN = true /\
        cancel_capable N σ x l σ0 /\
        call_unsubscribe h l σ0 = Some (σ', Throw e))) /\
  (truthy x = false -> add h N x σ = Some (σ, Ok tt)) /\
  (forall s, heap σ !! N = Some (OSub s) -> isUnsubscribed s = false ->
             typeof x = TFunction \/ typeof x = TObject ->
             (forall l, x = VObj l -> is_Some (heap σ !! l)) ->
             exists σ', add h N x σ = Some (σ', Ok tt)).
Proof.
  split; [|split].
  - intros σ' e. split.
    + intros H. unfold add in H.
      destruct (truthy x) eqn:Ht; simpl in H; [|discriminate].
      destruct (strict_eq x (VObj N)) eqn:Hthis; simpl in H; [discriminate|].
      destruct (strict_eq x (VObj EMPTY)) eqn:Hempty; simpl in H;
        [discriminate|].
      destruct x as [| |b|z| |str|f|l|sym]; try (simpl in Ht; discriminate);
        try (left; injection H as <- <-; unfold rejected; simpl in *;
             by rewrite Ht).
      * (* a function *)
        right. right.
        apply bind_inv in H as [(σ1 & sub & Halloc & H)|(e' & Halloc & _)];
          [|discriminate].
        unfold alloc in Halloc. injection Halloc as <- <-.
        apply add_object_throws in H
          as (o & sN & _ & _ & _ & HN & HsN & Hcall).
        simpl in HN.
        destruct (decide (fresh (dom (heap σ)) = N)) as [Heq|Hne].
        { rewrite Heq, lookup_insert_eq in HN. injection HN as <-.
          discriminate. }
        rewrite lookup_insert_ne in HN by done.
        exists sN, (fresh (dom (heap σ))),
          (set_object (fresh (dom (heap σ)))
             (OSub (new_Subscription (Some f))) σ).
        split; [done|]. split; [done|]. split; [apply capable_function|done].
      * (* an object *)
        right. right. unfold strict_eq in Hthis, Hempty.
        apply bool_decide_eq_false in Hthis, Hempty.
        apply add_object_throws in H
          as (o & sN & Ho & Hro & Hho & HN & HsN & Hcall).
        exists sN, l, σ. split; [done|]. split; [done|]. split; [|done].
        apply (capable_object N σ l o); congruence.
      * (* a symbol *)
        right. left. by injection H as <- <-.
    + intros [(Hx & -> & ->)|[(Hx & -> & ->)|(sN & l & σ0 & HN & HsN & Hc & H)]].
      * by apply add_rejected.
      * destruct x; try discriminate. by unfold add, strict_eq.
      * by rewrite (add_closed_parent h N sN x l σ σ0 HN HsN Hc).
  - apply add_falsy.
  - intros s HN Hs Hx Hex.
    destruct (truthy x) eqn:Ht; [|exists σ; by apply add_falsy].
    assert (Hpush : forall τ sub o,
      heap τ !! sub = Some o -> heap τ !! N = Some (OSub s) ->
      exists σ', add_object h N sub τ = Some (σ', Ok tt)).
    { intros τ sub o Hsub HN'. unfold add_object.
      rewrite (bind_Ok _ _ _ _ _ (read_eq _ _ _ Hsub)).
      destruct (reads_unsubscribed o || negb (has_unsubscribe o)); [by eexists|].
      rewrite (bind_Ok _ _ _ _ _ (read_sub_eq _ _ _ HN')), Hs. by eexists. }
    unfold add. rewrite Ht. simpl.
    destruct (strict_eq x (VObj N) || strict_eq x (VObj EMPTY)); [by eexists|].
    destruct x as [| |b|z| |str|f|l|sym]; try (simpl in Ht; discriminate);
      try (destruct Hx; discriminate).
    + assert (Hfresh : heap σ !! fresh (dom (heap σ)) = None)
        by apply not_elem_of_dom, is_fresh.
      unfold bind at 1. unfold alloc.
      eapply Hpush; simpl.
      * apply lookup_insert_eq.
      * rewrite lookup_insert_ne by congruence. done.
    + destruct (Hex l eq_refl) as [o Ho]. by eapply Hpush.
Qed.

(** The callback of the object at address 2 calls [EMPTY.add(1)]; added to
    [EMPTY], the object is unsubscribed at once and the [Error] about [1]
    leaves [add], though the object itself is no rejected argument. *)
Example add_passes_nested_error :
  observe (add (handlers_at (fun _ => [SAdd (Lit (VObj EMPTY)) (Lit (VNum 1))]) 3)
             EMPTY (VObj 2%positive)
             (reached (alloc (OForeign {| f_isUnsubscribed := false;
                                          f_unsubscribe := Some 0%nat |}))))
  = Some ([(2%positive, 0%nat)], Throw (InvalidArgument (VNum 1))).
Proof. vm_compute. reflexivity. Qed.

Lemma add_accepts_zero_counterexample :
  ~ (raises (add (handlers_at ex_code 3) 2%positive (VNum 0)) ex_tree
     <-> claimed_invalid (VNum 0) = true).
Proof.
  intros [_ Hclaim]. destruct (Hclaim eq_refl) as (σ' & e & H).
  rewrite add_falsy in H by reflexivity. discriminate.
Qed.

(** C8.  [N.add(null)], [N.add(N)] and [N.add(EMPTY)] return normally in
    the state they were called in: no field of any object has changed and no
    function was called. *)
Theorem add_ignores_null_self_empty (h : handlers) (N : loc) (σ : state) :
  add h N VNull σ = Some (σ, Ok tt) /\
  add h N (VObj N) σ = Some (σ, Ok tt) /\
  add h N (VObj EMPTY) σ = Some (σ, Ok tt).
Proof.
  unfold add, strict_eq. simpl. split; [done|]. split.
  - by rewrite bool_decide_eq_true_2.
  - by destruct (bool_decide (VObj EMPTY = VObj N)).
Qed.

(** ** [indexOf] and [splice] *)

Lemma indexOf_absent x subs :
  (forall l, x = VObj l -> l ∉ subs) -> indexOf x subs = -1.
Proof.
  induction subs as [|y rest IH]; intros Hx; simpl; [done|].
  unfold strict_eq. rewrite bool_decide_eq_false_2.
  - rewrite IH; [done|]. intros l Hl Hin. apply (Hx l Hl). by right.
  - intros Heq. apply (Hx y); [done|by left].
Qed.

Lemma indexOf_present l subs :
  l ∈ subs ->
  exists l1 l2, subs = l1 ++ l :: l2 /\ (l ∉ l1) /\
                indexOf (VObj l) subs = Z.of_nat (length l1).
Proof.
  induction subs as [|y rest IH]; intros Hin; [by apply elem_of_nil in Hin|].
  simpl. unfold strict_eq. destruct (decide (y = l)) as [->|Hne].
  - rewrite bool_decide_eq_true_2 by done.
    exists [], rest. split; [done|]. split; [apply not_elem_of_nil|done].
  - rewrite bool_decide_eq_false_2 by congruence.
    apply elem_of_cons in Hin as [?|Hin]; [congruence|].
    destruct (IH Hin) as (l1 & l2 & -> & Hl1 & ->).
    exists (y :: l1), l2. split; [done|]. split.
    + apply not_elem_of_cons. split; [congruence|done].
    + destruct (Z.eqb_spec (Z.of_nat (length l1)) (-1)) as [Heq|_]; [lia|].
      simpl length. lia.
Qed.

Lemma splice1_middle (l1 l2 : list loc) l :
  splice1 (Z.of_nat (length l1)) (l1 ++ l :: l2) = l1 ++ l2.
Proof.
  unfold splice1. rewrite Nat2Z.id, take_app_length.
  rewrite cons_middle, app_assoc.
  rewrite drop_app_length'; [done|]. rewrite length_app. simpl. lia.
Qed.

Lemma wfb_sound σ : wfb σ = true -> wf σ.
Proof.
  unfold wfb. intros [He Hall]%andb_true_iff.
  assert (Hnode : forall l s, heap σ !! l = Some (OSub s) ->
                              wf_node l (OSub s) = true).
  { intros l s Hl. rewrite forallb_forall in Hall.
    apply (Hall (l, OSub s)). apply list_elem_of_In.
    by apply elem_of_map_to_list. }
  split.
  - destruct (heap σ !! EMPTY) as [[s|]|]; try discriminate. eauto.
  - intros l s Hl Hs. specialize (Hnode l s Hl). simpl in Hnode.
    rewrite Hs in Hnode. simpl in Hnode.
    apply andb_true_iff in Hnode as [[H _]%andb_true_iff _].
    by apply bool_decide_eq_true in H.
  - intros l s Hl. specialize (Hnode l s Hl). simpl in Hnode.
    apply andb_true_iff in Hnode as [[_ H]%andb_true_iff _].
    by apply bool_decide_eq_true in H.
  - intros l s Hl. specialize (Hnode l s Hl). simpl in Hnode.
    apply andb_true_iff in Hnode as [_ H].
    by apply bool_decide_eq_true in H.
Qed.

(** C9.  In a state the methods can produce, let [N] be a subscription.
    If [l] is among its children, [N.remove(l)] returns normally and the only
    change is that the first occurrence of [l] is gone from the array: the
    children are [l1 ++ l2] where they were [l1 ++ l :: l2] with [l] not in
    [l1].  If [x] is not among the children (whatever value it is),
    [N.remove(x)] returns normally in the state it was called in. *)
Theorem remove_first_occurrence (N : loc) (s : Subscription) (σ : state) :
  wf σ ->
  heap σ !! N = Some (OSub s) ->
  (forall l, l ∈ children s ->
     exists l1 l2,
       children s = l1 ++ l :: l2 /\ (l ∉ l1) /\
       remove N (VObj l) σ
       = Some (set_object N
                 (OSub {| isUnsubscribed := isUnsubscribed s;
                          _unsubscribe := _unsubscribe s;
                          _subscriptions := Some (l1 ++ l2) |}) σ,
               Ok tt)) /\
  (forall x, (forall l, x = VObj l -> l ∉ children s) ->
             remove N x σ = Some (σ, Ok tt)).
Proof.
  intros Hwf HN. split.
  - intros l Hin.
    assert (Hsubs : _subscriptions s = Some (children s)).
    { unfold children in *. destruct (_subscriptions s); [done|].
      by apply elem_of_nil in Hin. }
    destruct (indexOf_present l _ Hin) as (l1 & l2 & Hsplit & Hl1 & Hidx).
    exists l1, l2. split; [done|]. split; [done|].
    assert (l <> N) by (intros ->; by eapply (wf_self _ Hwf N s)).
    assert (l <> EMPTY) by (intros ->; by eapply (wf_sentinel _ Hwf N s)).
    unfold remove, strict_eq. rewrite !bool_decide_eq_false_2 by congruence.
    simpl. rewrite (bind_Ok _ _ _ _ _ (read_sub_eq _ _ _ HN)), Hsubs, Hidx.
    destruct (Z.eqb_spec (Z.of_nat (length l1)) (-1)) as [Heq|_]; [lia|].
    simpl. unfold write. rewrite Hsplit at 1. by rewrite splice1_middle.
  - intros x Hx. unfold remove.
    destruct (nullish x || strict_eq x (VObj N) || strict_eq x (VObj EMPTY));
      [done|].
    rewrite (bind_Ok _ _ _ _ _ (read_sub_eq _ _ _ HN)).
    destruct (_subscriptions s) as [subs|] eqn:Hsubs; [|done].
    rewrite indexOf_absent; [done|].
    intros l Hl. specialize (Hx l Hl). unfold children in Hx.
    by rewrite Hsubs in Hx.
Qed.

Lemma remove_first_occurrence_witness :
  exists l1 l2,
    [3; 4; 3]%positive = l1 ++ 3%positive :: l2 /\ (3%positive ∉ l1) /\
    remove 2%positive (VObj 3%positive) ex_duplicate
    = Some (set_object 2%positive
              (OSub {| isUnsubscribed := false; _unsubscribe := None;
                       _subscriptions := Some (l1 ++ l2) |}) ex_duplicate,
            Ok tt).
Proof.
  apply (proj1 (remove_first_occurrence 2%positive
                  {| isUnsubscribed := false; _unsubscribe := None;
                     _subscriptions := Some [3; 4; 3]%positive |}
                  ex_duplicate (wfb_sound ex_duplicate eq_refl) eq_refl)
           3%positive).
  simpl. by left.
Defined.

(** * The array producer *)

Example subscriber_recorder :
  subscriber {| habit := Steady; items := [VNum 1; VNum 2; VNum 3];
                seen := []; budget := Some 2%nat |}
  = Normal {| habit := Steady; items := [VNum 1; VNum 2; VNum 3];
              seen := [Some (VNum 1); Some (VNum 2); None];
              budget := Some 0%nat |}.
Proof. reflexivity. Qed.

(** A throw of [next] leaves [subscriber] before [return] is called. *)
Example subscriber_throwing :
  subscriber {| habit := Throwing; items := [VNum 1; VNum 2];
                seen := []; budget := None |}
  = Abrupt {| habit := Throwing; items := [VNum 1; VNum 2];
              seen := [Some (VNum 1)]; budget := None |}
           (UserError 0).
Proof. reflexivity. Qed.

(** The length is read once: an observer that shortens the array is given
    [undefined] for the element that is gone. *)
Example subscriber_shrinking :
  subscriber {| habit := Shrinking; items := [VNum 1; VNum 2];
                seen := []; budget := None |}
  = Normal {| habit := Shrinking; items := [];
              seen := [Some (VNum 1); Some VUndefined; None];
              budget := None |}.
Proof. reflexivity. Qed.

Lemma subscriber_loop_spec {W} `{Observer W} n i (w : W) :
  exists k, (k <= n)%nat /\
    (forall j, (j < k)%nat ->
               exists wj, fed j i w = Normal wj /\ disposed wj = false) /\
    ((exists wk, fed k i w = Normal wk /\
                 ((k < n)%nat -> disposed wk = true) /\
                 subscriber_loop n i w = Normal wk) \/
     (exists w' e, fed k i w = Abrupt w' e /\
                   subscriber_loop n i w = Abrupt w' e)).
Proof.
  revert i w. induction n as [|n IH]; intros i w; simpl.
  - exists 0%nat. split; [lia|]. split; [intros; lia|].
    left. exists w. split; [done|]. split; [intros; lia|done].
  - destruct (disposed w) eqn:Hd.
    + exists 0%nat. split; [lia|]. split; [intros; lia|].
      left. exists w. done.
    + destruct (next (nth i (elements w) VUndefined) w) as [w1|w1 e] eqn:Hn.
      * destruct (IH (S i) w1) as (k & Hk & Hlt & Hend).
        exists (S k). split; [lia|]. split.
        { intros [|j] Hj; [by exists w|]. simpl. rewrite Hn. apply Hlt. lia. }
        simpl. rewrite Hn.
        destruct Hend as [(wk & Hfed & Hge & Hloop)|(w' & e & Hfed & Hloop)].
        -- left. exists wk. split; [done|]. split; [|done].
           intros Hk'. apply Hge. lia.
        -- right. eauto.
      * exists 1%nat. split; [lia|]. split.
        { intros j Hj. assert (j = 0%nat) as -> by lia. by exists w. }
        right. exists w1, e. simpl. by rewrite Hn.
Qed.

Lemma fed_deliver {W} `{Observer W} (arr : list value) k i (w : W) :
  (forall v u u', next v u = Normal u' -> elements u' = elements u) ->
  elements w = arr -> (i + k <= length arr)%nat ->
  fed k i w = deliver (take k (drop i arr)) w.
Proof.
  intros Hframe. revert i w. induction k as [|k IH]; intros i w Harr Hlen;
    simpl; [done|].
  destruct (lookup_lt_is_Some_2 arr i) as [x Hx]; [lia|].
  rewrite Harr, (nth_lookup_Some _ _ _ _ Hx), (drop_S _ _ _ Hx). simpl.
  destruct (next x w) as [w1|w1 e] eqn:Hn; [|done].
  apply IH; [|lia]. rewrite <- Harr. by eapply Hframe.
Qed.

(** C10, as the code has it.  If the producer's [array] is not an array,
    [subscriber] only calls [return].  If it is, there is a number [k], at
    most the length read at the start, such that [next] was called [k]
    times, on [array[0]], [array[1]], ... as read at the time of each call,
    and [disposed] was false before each of these calls.  Then either none
    of the calls threw, [disposed] was true after the [k]-th if [k] is less
    than the length, and [subscriber] ends as the call of [return] ends; or
    the [k]-th call threw, and [subscriber] ends with that throw, [return]
    not being called.  If [next] never changes the array, the values given
    are the first [k] elements of the array, in the order of the indices. *)
Theorem subscriber_emits_until_disposed {W} `{Observer W} (w : W) :
  (isArray w = false -> subscriber w = return_ w) /\
  (isArray w = true ->
   exists k, (k <= length (elements w))%nat /\
     (forall j, (j < k)%nat ->
                exists wj, fed j 0 w = Normal wj /\ disposed wj = false) /\
     ((exists wk, fed k 0 w = Normal wk /\
                  ((k < length (elements w))%nat -> disposed wk = true) /\
                  subscriber w = return_ wk) \/
      (exists w' e, fed k 0 w = Abrupt w' e /\
                    subscriber w = Abrupt w' e))) /\
  ((forall v u u', next v u = Normal u' -> elements u' = elements u) ->
   forall k, (k <= length (elements w))%nat ->
             fed k 0 w = deliver (take k (elements w)) w).
Proof.
  split; [|split].
  - intros Harr. unfold subscriber. by rewrite Harr.
  - intros Harr.
    destruct (subscriber_loop_spec (length (elements w)) 0 w)
      as (k & Hk & Hlt & Hend).
    exists k. split; [done|]. split; [done|].
    unfold subscriber. rewrite Harr.
    destruct Hend as [(wk & Hfed & Hge & ->)|(w' & e & Hfed & ->)].
    + left. by exists wk.
    + right. by exists w', e.
  - intros Hframe k Hk.
    rewrite (fed_deliver (elements w) k 0 w Hframe eq_refl) by lia.
    by rewrite drop_0.
Qed.

Lemma subscriber_skips_return_counterexample :
  ~ completes_by_return {| habit := Throwing; items := [VNum 1; VNum 2];
                           seen := []; budget := None |}.
Proof. intros (k & wk & _ & Hsub). discriminate. Qed.

(** * Further properties of [add] and [remove] *)

Lemma add_object_open h N s sub o σ :
  heap σ !! sub = Some o ->
  reads_unsubscribed o = false -> has_unsubscribe o = true ->
  heap σ !! N = Some (OSub s) -> isUnsubscribed s = false ->
  add_object h N sub σ
  = Some (set_object N (OSub (with_children s (children s ++ [sub]))) σ, Ok tt).
Proof.
  intros Hsub Hro Hho HN Hs. unfold add_object.
  rewrite (bind_Ok _ _ _ _ _ (read_eq _ _ _ Hsub)), Hro, Hho. simpl.
  rewrite (bind_Ok _ _ _ _ _ (read_sub_eq _ _ _ HN)), Hs.
  unfold write, with_children. by rewrite Hs.
Qed.

(** X1.  On a subscription [N] that is not unsubscribed, [add(x)] for a
    function, or for a live object with an [unsubscribe] function, returns
    normally and appends one element at the end of [N]'s children: the new
    subscription around the function, or the object.  Nothing else changes
    and no function is called, whatever the handlers are. *)
Theorem add_to_open_parent (h : handlers) (N : loc) (s : Subscription)
  (x : value) (l : loc) (σ σ0 : state) :
  heap σ !! N = Some (OSub s) ->
  isUnsubscribed s = false ->
  cancel_capable N σ x l σ0 ->
  add h N x σ
  = Some (set_object N (OSub (with_children s (children s ++ [l]))) σ0, Ok tt).
Proof.
  intros HN Hs Hx.
  destruct Hx as [f|l o Hne1 Hne2 Hl Hro Hho]; unfold add; simpl.
  - set (l := fresh (dom (heap σ))).
    assert (Hfresh : heap σ !! l = None) by apply not_elem_of_dom, is_fresh.
    unfold bind at 1. unfold alloc. fold l.
    apply (add_object_open h N s l (OSub (new_Subscription (Some f))));
      simpl; try done.
    + apply lookup_insert_eq.
    + rewrite lookup_insert_ne by congruence. done.
  - unfold strict_eq. rewrite !bool_decide_eq_false_2 by congruence. simpl.
    by apply (add_object_open h N s l o).
Qed.

Lemma add_to_open_parent_witness :
  add (handlers_at ex_code 0) 2%positive (VFun 1%nat) ex_reentrant
  = Some (set_object 2%positive
            (OSub (with_children (new_Subscription (Some 5%nat))
                     [fresh (dom (heap ex_reentrant))]))
            (set_object (fresh (dom (heap ex_reentrant)))
               (OSub (new_Subscription (Some 1%nat))) ex_reentrant),
          Ok tt).
Proof.
  exact (add_to_open_parent (handlers_at ex_code 0) 2%positive
           (new_Subscription (Some 5%nat)) (VFun 1%nat) _ ex_reentrant _
           eq_refl eq_refl (capable_function 2%positive ex_reentrant 1%nat)).
Defined.

(** X2.  [add(x)] for an object that reads as unsubscribed, or whose
    [unsubscribe] is not a function, returns normally and changes nothing,
    on every receiver: such an object is never stored and never called. *)
Theorem add_inert_object (h : handlers) (N l : loc) (o : object) (σ : state) :
  heap σ !! l = Some o ->
  reads_unsubscribed o || negb (has_unsubscribe o) = true ->
  add h N (VObj l) σ = Some (σ, Ok tt).
Proof.
  intros Hl Ho. unfold add, strict_eq. simpl.
  destruct (bool_decide (VObj l = VObj N) || bool_decide (VObj l = VObj EMPTY));
    [done|].
  unfold add_object. rewrite (bind_Ok _ _ _ _ _ (read_eq _ _ _ Hl)).
  by rewrite Ho.
Qed.

Lemma add_inert_object_witness :
  add (handlers_at ex_code 0) 2%positive (VObj 3%positive) ex_inert
  = Some (ex_inert, Ok tt) /\
  add (handlers_at ex_code 0) 2%positive (VObj 4%positive) ex_inert
  = Some (ex_inert, Ok tt).
Proof.
  split.
  - exact (add_inert_object (handlers_at ex_code 0) 2%positive 3%positive
             (OForeign {| f_isUnsubscribed := false; f_unsubscribe := None |})
             ex_inert eq_refl eq_refl).
  - exact (add_inert_object (handlers_at ex_code 0) 2%positive 4%positive
             (OSub (unsubscribed (new_Subscription None)))
             ex_inert eq_refl eq_refl).
Defined.

Lemma add_live_object h N s l o σ :
  heap σ !! N = Some (OSub s) -> isUnsubscribed s = false ->
  l <> N -> l <> EMPTY ->
  heap σ !! l = Some o ->
  reads_unsubscribed o = false -> has_unsubscribe o = true ->
  add h N (VObj l) σ
  = Some (set_object N (OSub (with_children s (children s ++ [l]))) σ, Ok tt).
Proof.
  intros HN Hs Hne1 Hne2 Hl Hro Hho. unfold add, strict_eq. simpl.
  rewrite !bool_decide_eq_false_2 by congruence. simpl.
  by apply (add_object_open h N s l o).
Qed.

Lemma add_function h N s f σ :
  heap σ !! N = Some (OSub s) -> isUnsubscribed s = false ->
  add h N (VFun f) σ
  = Some (set_object N
            (OSub (with_children s (children s ++ [fresh (dom (heap σ))])))
            (set_object (fresh (dom (heap σ)))
               (OSub (new_Subscription (Some f))) σ),
          Ok tt).
Proof.
  intros HN Hs. unfold add. simpl.
  assert (Hfresh : heap σ !! fresh (dom (heap σ)) = None)
    by apply not_elem_of_dom, is_fresh.
  unfold bind at 1. unfold alloc.
  apply (add_object_open h N s _ (OSub (new_Subscription (Some f))));
    simpl; try done.
  - apply lookup_insert_eq.
  - rewrite lookup_insert_ne by congruence. done.
Qed.

Lemma set_object_twice l o1 o2 σ :
  set_object l o2 (set_object l o1 σ) = set_object l o2 σ.
Proof. unfold set_object. simpl. by rewrite insert_insert_eq. Qed.

Lemma set_object_same l o σ :
  heap σ !! l = Some o -> set_object l o σ = σ.
Proof.
  intros Hl. destruct σ as [hp lg]. unfold set_object. simpl in *.
  by rewrite insert_id.
Qed.

Lemma indexOf_last l subs :
  l ∉ subs -> indexOf (VObj l) (subs ++ [l]) = Z.of_nat (length subs).
Proof.
  induction subs as [|y rest IH]; intros Hl; simpl; unfold strict_eq.
  - by rewrite bool_decide_eq_true_2.
  - apply not_elem_of_cons in Hl as [Hne Hl].
    rewrite bool_decide_eq_false_2 by congruence. rewrite (IH Hl).
    destruct (Z.eqb_spec (Z.of_nat (length rest)) (-1)) as [Heq|_]; lia.
Qed.

Lemma splice1_last l subs :
  splice1 (Z.of_nat (length subs)) (subs ++ [l]) = subs.
Proof. by rewrite splice1_middle, app_nil_r. Qed.

Lemma splice1_length i (subs : list loc) :
  (length subs <= S (length (splice1 i subs)))%nat.
Proof.
  unfold splice1. rewrite length_app, length_take, length_drop. lia.
Qed.

Lemma remove_childless N s x σ :
  heap σ !! N = Some (OSub s) -> children s = [] ->
  remove N x σ = Some (σ, Ok tt).
Proof.
  intros HN Hc. unfold remove.
  destruct (nullish x || strict_eq x (VObj N) || strict_eq x (VObj EMPTY));
    [done|].
  rewrite (bind_Ok _ _ _ _ _ (read_sub_eq _ _ _ HN)).
  unfold children in Hc. destruct (_subscriptions s) as [subs|]; [|done].
  simpl in Hc. by subst subs.
Qed.

(** X3.  Let [N] be a subscription that is not unsubscribed and [l] a live
    object with an [unsubscribe] function that is not among [N]'s children.
    [N.add(l)] followed by [N.remove(l)] returns normally and leaves [N]
    with the children it had, in the same order; no other object and no
    entry of the log has changed.  If [N] already had an array, the state is
    the one before. *)
Theorem add_then_remove (h : handlers) (N l : loc) (s : Subscription)
  (o : object) (σ : state) :
  heap σ !! N = Some (OSub s) ->
  isUnsubscribed s = false ->
  l <> N -> l <> EMPTY ->
  heap σ !! l = Some o ->
  reads_unsubscribed o = false -> has_unsubscribe o = true ->
  l ∉ children s ->
  (add h N (VObj l) >> remove N (VObj l)) σ
  = Some (set_object N (OSub (with_children s (children s))) σ, Ok tt) /\
  (is_Some (_subscriptions s) ->
   (add h N (VObj l) >> remove N (VObj l)) σ = Some (σ, Ok tt)).
Proof.
  intros HN Hs Hne1 Hne2 Hl Hro Hho Hnew.
  assert (Hboth : (add h N (VObj l) >> remove N (VObj l)) σ
    = Some (set_object N (OSub (with_children s (children s))) σ, Ok tt)).
  { rewrite (bind_Ok _ _ _ _ _
               (add_live_object h N s l o σ HN Hs Hne1 Hne2 Hl Hro Hho)).
    unfold remove, strict_eq. simpl.
    rewrite !bool_decide_eq_false_2 by congruence. simpl.
    erewrite bind_Ok; [|apply read_sub_eq; apply lookup_insert_eq].
    simpl. rewrite indexOf_last by done.
    destruct (Z.eqb_spec (Z.of_nat (length (children s))) (-1)) as [Heq|_];
      [lia|].
    simpl. unfold write. by rewrite splice1_last, set_object_twice. }
  split; [done|]. intros [subs Hsubs]. rewrite Hboth. f_equal. f_equal.
  apply set_object_same. rewrite HN. f_equal. f_equal.
  destruct s as [b u c]. unfold with_children, children. simpl in *.
  by subst c.
Qed.

Lemma add_then_remove_witness :
  (add (handlers_at ex_code 0) 2%positive (VObj 5%positive)
   >> remove 2%positive (VObj 5%positive)) ex_spare
  = Some (ex_spare, Ok tt).
Proof.
  exact (proj2 (add_then_remove (handlers_at ex_code 0) 2%positive 5%positive
                  {| isUnsubscribed := false; _unsubscribe := None;
                     _subscriptions := Some [3; 4]%positive |}
                  (OSub (new_Subscription None)) ex_spare
                  eq_refl eq_refl ltac:(discriminate) ltac:(discriminate)
                  eq_refl eq_refl eq_refl
                  (bool_decide_unpack
                     (5%positive ∉ [3; 4]%positive) I))
               ltac:(eexists; reflexivity)).
Defined.

(** X4.  A function that was added cannot be taken out again by passing the
    function: [add] stores a new subscription around it, and [remove]
    compares its argument with the stored objects.  On a subscription that
    is not unsubscribed, [N.add(f)] followed by [N.remove(f)] ends in the
    state that [N.add(f)] alone produces, with the new subscription as the
    last child. *)
Theorem add_function_then_remove (h : handlers) (N : loc) (s : Subscription)
  (f : fid) (σ : state) :
  heap σ !! N = Some (OSub s) ->
  isUnsubscribed s = false ->
  (add h N (VFun f) >> remove N (VFun f)) σ = add h N (VFun f) σ /\
  add h N (VFun f) σ
  = Some (set_object N
            (OSub (with_children s (children s ++ [fresh (dom (heap σ))])))
            (set_object (fresh (dom (heap σ)))
               (OSub (new_Subscription (Some f))) σ),
          Ok tt).
Proof.
  intros HN Hs. pose proof (add_function h N s f σ HN Hs) as Hadd.
  split; [|done]. rewrite (bind_Ok _ _ _ _ _ Hadd), Hadd.
  unfold remove. simpl.
  erewrite bind_Ok; [|apply read_sub_eq; apply lookup_insert_eq].
  simpl. rewrite indexOf_absent; [done|]. intros l. discriminate.
Qed.

Lemma add_function_then_remove_witness :
  (add (handlers_at ex_code 0) 2%positive (VFun 1%nat)
   >> remove 2%positive (VFun 1%nat)) ex_spare
  = add (handlers_at ex_code 0) 2%positive (VFun 1%nat) ex_spare.
Proof.
  exact (proj1 (add_function_then_remove (handlers_at ex_code 0) 2%positive
                  {| isUnsubscribed := false; _unsubscribe := None;
                     _subscriptions := Some [3; 4]%positive |}
                  1%nat ex_spare eq_refl eq_refl)).
Defined.

(** X5.  On a subscription [N], [remove(x)] returns normally for every
    value [x].  It either changes nothing or replaces [N]'s children by a
    sublist that is shorter by at most one; the flag and the callback of
    [N], every other object and the log stay as they are. *)
Theorem remove_changes_only_children (N : loc) (s : Subscription) (x : value)
  (σ : state) :
  heap σ !! N = Some (OSub s) ->
  remove N x σ = Some (σ, Ok tt) \/
  exists subs,
    subs `sublist_of` children s /\
    (length (children s) <= S (length subs))%nat /\
    remove N x σ = Some (set_object N (OSub (with_children s subs)) σ, Ok tt).
Proof.
  intros HN. unfold remove.
  destruct (nullish x || strict_eq x (VObj N) || strict_eq x (VObj EMPTY));
    [by left|].
  rewrite (bind_Ok _ _ _ _ _ (read_sub_eq _ _ _ HN)).
  destruct (_subscriptions s) as [subs|] eqn:Hsubs; [|by left].
  destruct (negb (indexOf x subs =? -1)); [|by left].
  right. exists (splice1 (indexOf x subs) subs).
  unfold children. rewrite Hsubs. simpl.
  split; [apply splice1_sublist|]. split; [apply splice1_length|done].
Qed.

Lemma remove_changes_only_children_witness :
  remove 2%positive (VObj 3%positive) ex_duplicate
  = Some (ex_duplicate, Ok tt) \/
  exists subs,
    subs `sublist_of` [3; 4; 3]%positive /\
    (3 <= S (length subs))%nat /\
    remove 2%positive (VObj 3%positive) ex_duplicate
    = Some (set_object 2%positive
              (OSub (with_children
                       {| isUnsubscribed := false; _unsubscribe := None;
                          _subscriptions := Some [3; 4; 3]%positive |} subs))
              ex_duplicate, Ok tt).
Proof.
  exact (remove_changes_only_children 2%positive
           {| isUnsubscribed := false; _unsubscribe := None;
              _subscriptions := Some [3; 4; 3]%positive |}
           (VObj 3%positive) ex_duplicate eq_refl).
Defined.

(** X6.  Once [N.unsubscribe()] has returned, normally or by a throw,
    [N.remove(x)] changes nothing for every [x]: there is no array left to
    search.  ([N] is any subscription that was not unsubscribed before, or
    was and had no child.) *)
Theorem remove_after_unsubscribe (code : fid -> list stmt) (depth : nat)
  (N : loc) (s : Subscription) (x : value) (σ σ' : state) (r : result unit) :
  heap σ !! N = Some (OSub s) ->
  (isUnsubscribed s = true -> children s = []) ->
  unsubscribe (handlers_at code depth) N σ = Some (σ', r) ->
  remove N x σ' = Some (σ', Ok tt).
Proof.
  intros HN Hwf H. pose proof (handlers_at_sound code depth) as Hh.
  destruct (isUnsubscribed s) eqn:Hs.
  - rewrite (unsubscribe_closed _ _ _ _ HN Hs) in H. injection H as <- _.
    by apply (remove_childless N s), Hwf.
  - pose proof (unsubscribe_open_evolves _ _ _ _ _ _ Hh HN Hs H) as He.
    destruct (ev_sub _ _ He N _ (started_heap N s σ)) as (s' & HN' & _ & Hc).
    destruct Hc as [_ Hsub]; [done|].
    apply (remove_childless N s'); [done|]. by apply sublist_nil_r.
Qed.

Lemma remove_after_unsubscribe_witness :
  exists σ' r,
    unsubscribe (handlers_at ex_code 3) 2%positive ex_tree = Some (σ', r) /\
    remove 2%positive (VObj 3%positive) σ' = Some (σ', Ok tt).
Proof.
  destruct (unsubscribe (handlers_at ex_code 3) 2%positive ex_tree)
    as [[σ' r]|] eqn:H; [|vm_compute in H; discriminate].
  exists σ', r. split; [reflexivity|].
  exact (remove_after_unsubscribe ex_code 3 2%positive
           {| isUnsubscribed := false; _unsubscribe := Some 0%nat;
              _subscriptions := Some [3; 4; 5]%positive |}
           (VObj 3%positive) ex_tree σ' r eq_refl
           ltac:(discriminate) H).
Defined.

(** * Further properties of [unsubscribe] *)

Lemma call_unsubscribe_marks code depth c sc σ σ' r :
  heap σ !! c = Some (OSub sc) ->
  call_unsubscribe (handlers_at code depth) c σ = Some (σ', r) ->
  flag_set σ' c.
Proof.
  intros Hc H. destruct depth as [|d]; [discriminate|].
  simpl in H. unfold dispatch_unsubscribe in H.
  rewrite (bind_Ok _ _ _ _ _ (read_eq _ _ _ Hc)) in H.
  by apply (unsubscribe_marks _ _ _ _ _ (handlers_at_sound code d)) in H.
Qed.

Lemma evolves_flag_set σ σ' l : evolves σ σ' -> flag_set σ l -> flag_set σ' l.
Proof.
  intros He (s & Hl & Hs). destruct (ev_sub _ _ He l s Hl) as (s' & Hl' & _ & Hc).
  exists s'. split; [done|]. by apply Hc.
Qed.

Lemma child_runs_marks code depth subs σ rs σ' :
  child_runs (handlers_at code depth) subs σ rs σ' ->
  forall c sc, c ∈ subs -> heap σ !! c = Some (OSub sc) -> flag_set σ' c.
Proof.
  pose proof (handlers_at_sound code depth) as Hh.
  induction 1 as [σ|sub rest σ σ1 r rs σ' Hcall Hruns IH]; intros c sc Hin Hc.
  - by apply elem_of_nil in Hin.
  - destruct (hs_unsubscribe _ Hh sub _ _ _ Hcall) as (He & _ & _).
    apply elem_of_cons in Hin as [->|Hin].
    + apply (child_runs_sound _ Hh) in Hruns as (He' & _ & _).
      apply (evolves_flag_set σ1); [done|].
      by eapply call_unsubscribe_marks.
    + destruct (ev_sub _ _ He c sc Hc) as (sc' & Hc' & _). by eapply IH.
Qed.

(** X7.  When [N.unsubscribe()] returns on a subscription that was not
    unsubscribed, normally or by a throw and whatever the callbacks did,
    [N] and every subscription that was among its children have their flag
    set. *)
Theorem unsubscribe_closes_children (code : fid -> list stmt) (depth : nat)
  (N : loc) (s : Subscription) (σ σ' : state) (r : result unit) :
  heap σ !! N = Some (OSub s) ->
  isUnsubscribed s = false ->
  unsubscribe (handlers_at code depth) N σ = Some (σ', r) ->
  flag_set σ' N /\
  forall c sc, c ∈ children s -> heap σ !! c = Some (OSub sc) ->
               flag_set σ' c.
Proof.
  intros HN Hs H. pose proof (handlers_at_sound code depth) as Hh.
  split; [by apply (unsubscribe_marks _ _ _ _ _ Hh H)|].
  intros c sc Hin Hc.
  destruct (proj1 (unsubscribe_open _ N s σ σ' r HN Hs) H)
    as (σ1 & r0 & rs & Hrun & Hruns & _).
  assert (Hc0 : exists sc0, heap (set_object N (OSub (unsubscribed s)) σ) !! c
                            = Some (OSub sc0)).
  { simpl. destruct (decide (N = c)) as [<-|Hne].
    - rewrite lookup_insert_eq. eauto.
    - rewrite lookup_insert_ne by done. eauto. }
  destruct Hc0 as (sc0 & Hc0).
  assert (Hc1 : exists sc1, heap σ1 !! c = Some (OSub sc1)).
  { unfold teardown_run in Hrun. destruct (_unsubscribe s) as [f|].
    - destruct (hs_function _ Hh f N _ _ _ Hrun) as (He & _ & _).
      destruct (ev_sub _ _ He c sc0 Hc0) as (sc1 & Hc1 & _). eauto.
    - destruct Hrun as [-> _]. eauto. }
  destruct Hc1 as (sc1 & Hc1). by eapply child_runs_marks.
Qed.

Lemma unsubscribe_closes_children_witness :
  exists σ', flag_set σ' 2%positive /\
    forall c sc, c ∈ [3; 4; 5]%positive ->
                 heap ex_tree !! c = Some (OSub sc) -> flag_set σ' c.
Proof.
  destruct (unsubscribe (handlers_at ex_code 3) 2%positive ex_tree)
    as [[σ' r]|] eqn:H; [|vm_compute in H; discriminate].
  exists σ'.
  exact (unsubscribe_closes_children ex_code 3 2%positive
           {| isUnsubscribed := false; _unsubscribe := Some 0%nat;
              _subscriptions := Some [3; 4; 5]%positive |}
           ex_tree σ' r eq_refl eq_refl H).
Defined.

(** ** Every callback is called once *)

Lemma calls_of_app l lg1 lg2 :
  calls_of l (lg1 ++ lg2) = calls_of l lg1 ++ calls_of l lg2.
Proof.
  induction lg1 as [|ev rest IH]; simpl; [done|].
  destruct (decide (ev.1 = l)); simpl; by rewrite IH.
Qed.

Lemma calls_of_event l l' f lg :
  calls_of l (lg ++ [(l', f)])
  = calls_of l lg ++ (if decide (l' = l) then [f] else []).
Proof. rewrite calls_of_app. simpl. by destruct (decide (l' = l)). Qed.

Lemma log_ok_initial : log_ok initial_state.
Proof.
  split; simpl; [|done].
  intros l s Hl. apply lookup_singleton_Some in Hl as [_ [= <-]]. done.
Qed.

Lemma log_ok_write σ l s s' :
  log_ok σ -> heap σ !! l = Some (OSub s) -> own_calls s' = own_calls s ->
  log_ok (set_object l (OSub s') σ).
Proof.
  intros [Hsub Hfree] Hl Hown. split; simpl.
  - intros l0 s0. destruct (decide (l = l0)) as [<-|Hne].
    + rewrite lookup_insert_eq. intros [= <-]. rewrite Hown. by apply Hsub.
    + rewrite lookup_insert_ne by done. apply Hsub.
  - intros l0. destruct (decide (l = l0)) as [<-|Hne].
    + by rewrite lookup_insert_eq.
    + rewrite lookup_insert_ne by done. apply Hfree.
Qed.

Lemma log_ok_started σ l s :
  log_ok σ -> heap σ !! l = Some (OSub s) -> isUnsubscribed s = false ->
  log_ok (started l s σ).
Proof.
  intros Hok Hl Hs. pose proof (lo_sub _ Hok l s Hl) as Hnone.
  unfold own_calls in Hnone. rewrite Hs in Hnone.
  unfold started. destruct (_unsubscribe s) as [f|] eqn:Hf.
  - destruct Hok as [Hsub Hfree]. split; simpl.
    + intros l0 s0. rewrite calls_of_event.
      destruct (decide (l = l0)) as [<-|Hne].
      * rewrite lookup_insert_eq. intros [= <-]. rewrite Hnone.
        unfold own_calls, unsubscribed. simpl. by rewrite Hf.
      * rewrite lookup_insert_ne by done. intros Hl0.
        rewrite app_nil_r. by apply Hsub.
    + intros l0. rewrite calls_of_event.
      destruct (decide (l = l0)) as [<-|Hne].
      * by rewrite lookup_insert_eq.
      * rewrite lookup_insert_ne by done. intros Hl0.
        rewrite app_nil_r. by apply Hfree.
  - apply (log_ok_write σ l s); [done|done|].
    unfold own_calls, unsubscribed. simpl. by rewrite Hf, Hs.
Qed.

Lemma log_ok_alloc σ f :
  log_ok σ ->
  log_ok (set_object (fresh (dom (heap σ))) (OSub (new_Subscription f)) σ).
Proof.
  assert (Hfresh : heap σ !! fresh (dom (heap σ)) = None).
  { apply not_elem_of_dom, is_fresh. }
  intros [Hsub Hfree]. split; simpl.
  - intros l s. destruct (decide (fresh (dom (heap σ)) = l)) as [<-|Hne].
    + rewrite lookup_insert_eq. intros [= <-]. by apply Hfree.
    + rewrite lookup_insert_ne by done. apply Hsub.
  - intros l. destruct (decide (fresh (dom (heap σ)) = l)) as [<-|Hne].
    + by rewrite lookup_insert_eq.
    + rewrite lookup_insert_ne by done. apply Hfree.
Qed.

Lemma log_ok_foreign_call σ l o f :
  log_ok σ -> heap σ !! l = Some (OForeign o) -> log_ok (add_event (l, f) σ).
Proof.
  intros [Hsub Hfree] Hl. split; simpl.
  - intros l0 s Hl0. rewrite calls_of_event.
    destruct (decide (l = l0)) as [<-|Hne]; [congruence|].
    rewrite app_nil_r. by apply Hsub.
  - intros l0 Hl0. rewrite calls_of_event.
    destruct (decide (l = l0)) as [<-|Hne]; [congruence|].
    rewrite app_nil_r. by apply Hfree.
Qed.

Lemma reported_full r :
  result_full r -> forallb exn_full (reported r) = true.
Proof.
  destruct r as [[]|e]; simpl; [done|]. intros He.
  destruct e as [n| |v|errors]; simpl in *; try done.
  by destruct errors.
Qed.

Lemma reported_nonempty r :
  result_full r -> failed r = true -> reported r <> [].
Proof.
  destruct r as [[]|e]; simpl; [done|]. intros He _.
  destruct e as [n| |v|errors]; simpl in *; try done.
  by destruct errors.
Qed.

Lemma outcome_full r0 rs :
  result_full r0 -> Forall result_full rs ->
  result_full (outcome (failed r0 || existsb failed rs)
                       (own_error r0 ++ concat (map reported rs))).
Proof.
  intros H0 Hrs.
  assert (Hall : forallb exn_full (own_error r0 ++ concat (map reported rs))
                 = true).
  { rewrite forallb_app. apply andb_true_iff. split.
    - destruct r0 as [[]|e]; simpl in *; [done|]. by rewrite H0.
    - induction Hrs as [|r rs Hr _ IH]; simpl; [done|].
      rewrite forallb_app, IH, reported_full; done. }
  assert (Hne : failed r0 || existsb failed rs = true ->
                own_error r0 ++ concat (map reported rs) <> []).
  { intros Hfail Hnil. apply app_eq_nil in Hnil as [Hown Hch].
    destruct r0 as [[]|e]; [|discriminate]. simpl in Hfail.
    clear Hall H0 Hown.
    induction Hrs as [|r rs Hr _ IH]; simpl in *; [discriminate|].
    apply app_eq_nil in Hch as [Hr0 Hch].
    apply orb_true_iff in Hfail as [Hfail|Hfail]; [|by apply IH].
    by apply (reported_nonempty r). }
  unfold outcome. destruct (failed r0 || existsb failed rs); [|done].
  simpl. destruct (own_error r0 ++ concat (map reported rs)); [|done].
  by destruct Hne.
Qed.

(** Closes the goal of a step that left the state as it was. *)
Ltac unchanged2 := split; [done | done].

Section Accounting.
Variable h : handlers.
Hypothesis Hh : handlers_accounted h.

Lemma child_runs_accounted subs σ rs σ' :
  child_runs h subs σ rs σ' ->
  (log_ok σ -> log_ok σ') /\ Forall result_full rs.
Proof.
  induction 1 as [σ|sub rest σ σ1 r rs σ' Hcall _ (IHl & IHr)].
  - split; [done|constructor].
  - destruct (ha_unsubscribe h Hh sub _ _ _ Hcall) as (Hl & Hr).
    split; [auto|]. by constructor.
Qed.

Lemma unsubscribe_accounted this : accounted (unsubscribe h this).
Proof.
  intros σ σ' r H.
  assert (Hs : exists s, heap σ !! this = Some (OSub s)).
  { unfold unsubscribe in H.
    apply bind_inv in H as [(? & ? & H & _)|(? & H & _)];
      apply read_sub_inv in H as (_ & s & ? & _); eauto. }
  destruct Hs as (s & Hl). destruct (isUnsubscribed s) eqn:Hs.
  - rewrite (unsubscribe_closed _ _ _ _ Hl Hs) in H. inversion H; subst.
    unchanged2.
  - destruct (proj1 (unsubscribe_open h this s σ σ' r Hl Hs) H)
      as (σ1 & r0 & rs & Hrun & Hruns & ->).
    apply child_runs_accounted in Hruns as (Hch & Hrs).
    assert (Hown : (log_ok σ -> log_ok σ1) /\ result_full r0).
    { pose proof (fun Hok => log_ok_started σ this s Hok Hl Hs) as Hst.
      unfold started, teardown_run in *.
      destruct (_unsubscribe s) as [f|].
      - destruct (ha_function h Hh f this _ _ _ Hrun) as (Hl1 & Hr1).
        split; [|done]. intros Hok. apply Hl1, Hst, Hok.
      - destruct Hrun as [-> ->]. split; [exact Hst|done]. }
    destruct Hown as (Hl1 & Hr1). split; [auto|]. by apply outcome_full.
Qed.

Lemma add_object_accounted this sub : accounted (add_object h this sub).
Proof.
  intros σ σ' r. unfold add_object. intros H.
  apply bind_inv in H as [(σ1 & o & Hread & H)|(e & Hread & _)];
    apply read_inv in Hread as (-> & o' & Ho & Heq); [|discriminate].
  injection Heq as ->.
  destruct (reads_unsubscribed o' || negb (has_unsubscribe o')).
  { inversion H; subst. unchanged2. }
  apply bind_inv in H as [(σ1 & s & Hread & H)|(e & Hread & _)];
    apply read_sub_inv in Hread as (-> & s' & Hs & Heq); [|discriminate].
  injection Heq as ->. destruct (isUnsubscribed s') eqn:Hflag.
  - exact (ha_unsubscribe h Hh _ _ _ _ H).
  - inversion H; subst. split; [|done]. intros Hok.
    apply (log_ok_write σ this s'); [done|done|]. unfold own_calls. simpl.
    by rewrite Hflag.
Qed.

Lemma add_accounted this x : accounted (add h this x).
Proof.
  intros σ σ' r. unfold add. intros H.
  destruct (negb (truthy x) || strict_eq x (VObj this)
            || strict_eq x (VObj EMPTY)).
  { inversion H; subst. unchanged2. }
  destruct x as [| |b|z| |str|f|sub|sym];
    try (inversion H; subst; unchanged2).
  - apply bind_inv in H as [(σ1 & sub & Halloc & H)|(e & Halloc & _)];
      [|discriminate].
    unfold alloc in Halloc. injection Halloc as <- <-.
    apply add_object_accounted in H as (Hl & Hr).
    split; [|done]. intros Hok. by apply Hl, log_ok_alloc.
  - exact (add_object_accounted _ _ _ _ _ H).
Qed.

Lemma remove_accounted this x : accounted (remove this x).
Proof.
  intros σ σ' r. unfold remove. intros H.
  destruct (nullish x || strict_eq x (VObj this) || strict_eq x (VObj EMPTY)).
  { inversion H; subst. unchanged2. }
  apply bind_inv in H as [(σ1 & s & Hread & H)|(e & Hread & _)];
    apply read_sub_inv in Hread as (-> & s' & Hs & Heq); [|discriminate].
  injection Heq as ->.
  destruct (_subscriptions s') as [subs|];
    [|inversion H; subst; unchanged2].
  destruct (negb (indexOf x subs =? -1));
    [|inversion H; subst; unchanged2].
  inversion H; subst. split; [|done]. intros Hok.
  apply (log_ok_write σ this s'); [done|done|]. unfold own_calls. by simpl.
Qed.

Lemma exec_accounted this s : accounted (exec h this s).
Proof.
  intros σ σ' r H. destruct s as [o|o x|o x|n]; simpl in H.
  - unfold invoke_unsubscribe in H. destruct (eval this o);
      try (inversion H; subst; unchanged2).
    exact (ha_unsubscribe h Hh _ _ _ _ H).
  - unfold invoke_method in H. destruct (eval this o) as [| | | | | | |l|];
      try (inversion H; subst; unchanged2).
    apply bind_inv in H as [(σ1 & ob & Hread & H)|(e & Hread & _)];
      apply read_inv in Hread as (-> & o' & Ho & Heq); [|discriminate].
    injection Heq as ->. destruct o' as [s|o'].
    + exact (add_accounted _ _ _ _ _ H).
    + inversion H; subst. unchanged2.
  - unfold invoke_method in H. destruct (eval this o) as [| | | | | | |l|];
      try (inversion H; subst; unchanged2).
    apply bind_inv in H as [(σ1 & ob & Hread & H)|(e & Hread & _)];
      apply read_inv in Hread as (-> & o' & Ho & Heq); [|discriminate].
    injection Heq as ->. destruct o' as [s|o'].
    + exact (remove_accounted _ _ _ _ _ H).
    + inversion H; subst. unchanged2.
  - inversion H; subst. unchanged2.
Qed.

Lemma run_accounted body this : accounted (run h body this).
Proof.
  induction body as [|s rest IH]; intros σ σ' r H; simpl in H.
  - inversion H; subst. unchanged2.
  - apply bind_inv in H as [(σ1 & [] & Hs & H)|(e & Hs & ->)].
    + apply exec_accounted in Hs as (Hl1 & _).
      apply IH in H as (Hl2 & Hr). split; auto.
    + exact (exec_accounted _ _ _ _ _ Hs).
Qed.
End Accounting.

Lemma handlers_at_accounted code depth :
  handlers_accounted (handlers_at code depth).
Proof.
  induction depth as [|d IH]; split; simpl.
  - intros l σ σ' r. discriminate.
  - intros f l σ σ' r. discriminate.
  - intros l σ σ' r H. unfold dispatch_unsubscribe in H.
    apply bind_inv in H as [(σ1 & o & Hread & H)|(e & Hread & _)];
      apply read_inv in Hread as (-> & o' & Ho & Heq); [|discriminate].
    injection Heq as ->. destruct o' as [s|o'].
    + exact (unsubscribe_accounted _ IH _ _ _ _ H).
    + destruct (f_unsubscribe o') as [f|]; [|inversion H; subst; unchanged2].
      unfold invoke_function in H.
      apply bind_inv in H as [(σ1 & [] & Hrec & H)|(e & Hrec & _)];
        [|discriminate].
      injection Hrec as <-. apply (run_accounted _ IH) in H as (Hl & Hr).
      split; [|done]. intros Hok. by eapply Hl, log_ok_foreign_call.
  - intros f l σ σ' r H. unfold invoke_function in H.
    apply bind_inv in H as [(σ1 & [] & Hrec & H)|(e & Hrec & _)];
      [|discriminate].
    injection Hrec as <-. exact (run_accounted _ IH _ _ _ _ _ H).
Qed.

Lemma log_ok_object σ o :
  log_ok σ -> log_ok (set_object (fresh (dom (heap σ))) (OForeign o) σ).
Proof.
  intros [Hsub Hfree]. split; simpl.
  - intros l s. destruct (decide (fresh (dom (heap σ)) = l)) as [<-|Hne].
    + by rewrite lookup_insert_eq.
    + rewrite lookup_insert_ne by done. apply Hsub.
  - intros l. destruct (decide (fresh (dom (heap σ)) = l)) as [<-|Hne].
    + by rewrite lookup_insert_eq.
    + rewrite lookup_insert_ne by done. apply Hfree.
Qed.

Lemma perform_accounted code depth op N :
  accounted (perform (handlers_at code depth) op N).
Proof.
  pose proof (handlers_at_accounted code depth) as Hh.
  destruct op as [|x|x]; simpl.
  - by apply unsubscribe_accounted.
  - by apply add_accounted.
  - apply remove_accounted.
Qed.

(** X8.  In every state a client can reach, whatever its callbacks do
    (re-entrant calls included): on behalf of a subscription whose flag is
    set and which has a callback, exactly one call was made, the call of
    that callback; on behalf of any other subscription, none. *)
Theorem callbacks_called_once (code : fid -> list stmt) (σ : state) :
  reachable code σ ->
  forall l s, heap σ !! l = Some (OSub s) ->
              calls_of l (log σ) = own_calls s.
Proof.
  intros Hreach. apply lo_sub.
  induction Hreach as [|σ f _ IH|σ o _ IH|σ depth op N σ' r _ IH _ H].
  - apply log_ok_initial.
  - by apply log_ok_alloc.
  - by apply log_ok_object.
  - by apply (perform_accounted code depth op N σ σ' r H).
Qed.

Lemma callbacks_called_once_witness :
  calls_of 2%positive (log ex_reentrant_done) = [5%nat].
Proof.
  exact (callbacks_called_once ex_code ex_reentrant_done
           (reach_perform ex_code ex_reentrant 3 Unsubscribe 2%positive
              ex_reentrant_done (Ok tt)
              (reach_new ex_code initial_state (Some 5%nat)
                 (reach_initial ex_code))
              (mk_is_Some _ _ eq_refl) eq_refl)
           2%positive (unsubscribed (new_Subscription (Some 5%nat))) eq_refl).
Defined.

Lemma child_runs_full h subs σ rs σ' :
  throws_full h -> child_runs h subs σ rs σ' -> Forall result_full rs.
Proof.
  intros Hfull. induction 1 as [σ|sub rest σ σ1 r rs σ' Hcall _ IH].
  - constructor.
  - constructor; [|done]. destruct r as [[]|e]; [done|].
    by eapply (tf_unsubscribe h Hfull).
Qed.

Lemma handlers_at_throws_full code depth :
  throws_full (handlers_at code depth).
Proof.
  pose proof (handlers_at_accounted code depth) as Hh. split.
  - intros l σ σ' e H. by destruct (ha_unsubscribe _ Hh l _ _ _ H).
  - intros f l σ σ' e H. by destruct (ha_function _ Hh f l _ _ _ H).
Qed.

(** X9.  Whatever [unsubscribe] throws is an [UnsubscriptionError].  If the
    calls it makes (the own callback, [unsubscribe] of each child) throw
    only values in which every [UnsubscriptionError] has at least one
    element, then the list of the one it throws has at least one element
    too, and so have those inside it.  The calls are of that kind when the
    callbacks throw values of their own that are no [UnsubscriptionError]
    and otherwise let pass what the methods they call throw. *)
Theorem unsubscribe_throws_nonempty (h : handlers) (N : loc)
  (σ σ' : state) (e : exn) :
  unsubscribe h N σ = Some (σ', Throw e) ->
  exists errors,
    e = UnsubscriptionError errors /\
    (throws_full h -> errors <> [] /\ exn_full e = true).
Proof.
  intros H.
  assert (Hs : exists s, heap σ !! N = Some (OSub s)).
  { unfold unsubscribe in H.
    apply bind_inv in H as [(? & ? & H & _)|(? & H & _)];
      apply read_sub_inv in H as (_ & s & ? & _); eauto. }
  destruct Hs as (s & HN). destruct (isUnsubscribed s) eqn:Hs.
  { rewrite (unsubscribe_closed _ _ _ _ HN Hs) in H. discriminate. }
  destruct (proj1 (unsubscribe_open _ N s σ σ' _ HN Hs) H)
    as (σ1 & r0 & rs & Hrun & Hruns & Hout).
  assert (Hfull : throws_full h ->
    result_full (outcome (failed r0 || existsb failed rs)
                         (own_error r0 ++ concat (map reported rs)))).
  { intros Hh. apply outcome_full; [|by eapply child_runs_full].
    destruct r0 as [[]|e0]; [done|]. unfold teardown_run in Hrun.
    destruct (_unsubscribe s) as [f|].
    - by eapply (tf_function h Hh).
    - by destruct Hrun. }
  rewrite <- Hout in Hfull. unfold outcome in Hout.
  destruct (failed r0 || existsb failed rs); [|discriminate].
  injection Hout as ->. eexists. split; [done|].
  intros Hh. specialize (Hfull Hh). simpl in Hfull. split; [|done].
  intros Hnil. rewrite Hnil in Hfull. discriminate.
Qed.

Lemma unsubscribe_throws_nonempty_witness :
  exists errors,
    UnsubscriptionError [UnsubscriptionError [UserError 10]]
    = UnsubscriptionError errors /\
    errors <> [] /\
    exn_full (UnsubscriptionError [UnsubscriptionError [UserError 10]]) = true.
Proof.
  destruct (unsubscribe (handlers_at ex_code 3) 3%positive ex_nested)
    as [[σ' r]|] eqn:H; [|vm_compute in H; discriminate].
  assert (Hr : r = Throw (UnsubscriptionError
                            [UnsubscriptionError [UserError 10]])).
  { vm_compute in H. congruence. }
  subst r.
  destruct (unsubscribe_throws_nonempty (handlers_at ex_code 3) 3%positive
              ex_nested σ' _ H) as (errors & Heq & Hfull).
  exists errors. split; [exact Heq|].
  exact (Hfull (handlers_at_throws_full ex_code 3)).
Defined.

(** A child that is no [Subscription] and throws an [UnsubscriptionError]
    without elements makes [unsubscribe] throw one without elements. *)
Example unsubscribe_throws_empty :
  unsubscribe
    {| call_unsubscribe := fun _ => throw (UnsubscriptionError []);
       call_function := fun _ _ => ret tt |}
    2%positive ex_spare
  = Some (set_object 2%positive
            (OSub (unsubscribed
                     {| isUnsubscribed := false; _unsubscribe := None;
                        _subscriptions := Some [3; 4]%positive |}))
            ex_spare,
          Throw (UnsubscriptionError [])).
Proof. vm_compute. reflexivity. Qed.

(** ** [unsubscribe] comes to an end *)

Lemma linkedb_sound σ : linkedb σ = true -> linked σ.
Proof.
  unfold linkedb. intros Hall l s c Hl Hc.
  rewrite forallb_forall in Hall.
  specialize (Hall (l, OSub s)). simpl in Hall.
  rewrite forallb_forall in Hall.
  apply (bool_decide_eq_true_1 (is_Some (heap σ !! c))). apply Hall.
  - apply list_elem_of_In. by apply elem_of_map_to_list.
  - by apply list_elem_of_In.
Qed.

Lemma run_quiet h body this σ :
  forallb is_throw body = true -> exists r, run h body this σ = Some (σ, r).
Proof.
  destruct body as [|s rest]; simpl; [by eexists|].
  intros [Hs _]%andb_true_iff. destruct s; try discriminate.
  by eexists.
Qed.

Lemma invoke_function_quiet code h f this σ :
  quiet code ->
  exists r, invoke_function code h f this σ = Some (add_event (this, f) σ, r).
Proof.
  intros Hq. unfold invoke_function, bind, record.
  apply run_quiet, Hq.
Qed.

Lemma linked_unsubscribed σ N s :
  linked σ -> heap σ !! N = Some (OSub s) ->
  linked (set_object N (OSub (unsubscribed s)) σ).
Proof.
  intros Hlink HN l sl c. simpl. destruct (decide (N = l)) as [<-|Hne].
  - rewrite lookup_insert_eq. intros [= <-] Hc. by apply elem_of_nil in Hc.
  - rewrite lookup_insert_ne by done. intros Hl Hc.
    destruct (decide (N = c)) as [<-|Hne'].
    + by rewrite lookup_insert_eq.
    + rewrite lookup_insert_ne by done. by eapply Hlink.
Qed.

Lemma open_within_unsubscribed A σ N s :
  open_within A σ -> heap σ !! N = Some (OSub s) ->
  open_within (A ∖ {[N]}) (set_object N (OSub (unsubscribed s)) σ).
Proof.
  intros Hopen HN l sl. simpl. destruct (decide (N = l)) as [<-|Hne].
  - rewrite lookup_insert_eq. intros [= <-]. discriminate.
  - rewrite lookup_insert_ne by done. intros Hl Hs.
    apply elem_of_difference. split; [by eapply Hopen|].
    by apply not_elem_of_singleton.
Qed.

Section Quiet.
Variable code : fid -> list stmt.
Hypothesis Hquiet : quiet code.

(** With callbacks that do not call back, [unsubscribe] with depth [d]
    gives an answer whenever at most [d] subscriptions are still open, on
    any graph: each nested call that does work first sets a flag. *)
Lemma unsubscribe_quiet d :
  forall (A : gset loc) σ N s,
    (size A <= d)%nat -> linked σ -> open_within A σ ->
    heap σ !! N = Some (OSub s) ->
    exists σ' r,
      unsubscribe (handlers_at code d) N σ = Some (σ', r) /\
      linked σ' /\ open_within A σ' /\ dom (heap σ') = dom (heap σ).
Proof.
  induction d as [|d IH]; intros A σ N s Hsize Hlink Hopen HN;
    destruct (isUnsubscribed s) eqn:Hs;
    try (exists σ, (Ok tt); split; [by eapply unsubscribe_closed|done]).
  - (* no subscription may be open *)
    pose proof (Hopen N s HN Hs) as HA.
    assert (HA0 : size A = 0%nat) by lia.
    apply size_empty_inv in HA0. set_solver.
  - pose proof (Hopen N s HN Hs) as HA.
    set (σ0 := set_object N (OSub (unsubscribed s)) σ).
    set (A' := A ∖ {[N]}).
    assert (Hsize' : (size A' <= d)%nat).
    { unfold A'. rewrite size_difference by set_solver.
      rewrite size_singleton. lia. }
    assert (Hdom0 : dom (heap σ0) = dom (heap σ)).
    { simpl. rewrite dom_insert_L.
      assert (HNd : N ∈ dom (heap σ)) by (apply elem_of_dom; eauto).
      apply set_eq. intros l. rewrite elem_of_union, elem_of_singleton.
      split; [intros [->|?]; done|auto]. }
    (* the callback *)
    assert (Hown : exists σ1 r0,
      teardown_run (handlers_at code (S d)) N (_unsubscribe s) σ0 r0 σ1 /\
      heap σ1 = heap σ0).
    { unfold teardown_run. destruct (_unsubscribe s) as [f|].
      - destruct (invoke_function_quiet code (handlers_at code d) f N σ0
                    Hquiet) as (r0 & Hr0).
        exists (add_event (N, f) σ0), r0. done.
      - exists σ0, (Ok tt). done. }
    destruct Hown as (σ1 & r0 & Hrun & Hheap1).
    (* the children *)
    assert (Hloop : forall subs τ,
      (forall c, c ∈ subs -> is_Some (heap τ !! c)) ->
      linked τ -> open_within A' τ ->
      exists rs τ',
        child_runs (handlers_at code (S d)) subs τ rs τ' /\
        linked τ' /\ open_within A' τ' /\ dom (heap τ') = dom (heap τ)).
    { induction subs as [|c rest IHrest]; intros τ Hsubs Hl Ho.
      - exists [], τ. split; [constructor|done].
      - destruct (Hsubs c) as [o Hc]; [by left|].
        assert (Hcall : exists τ1 r,
          call_unsubscribe (handlers_at code (S d)) c τ = Some (τ1, r) /\
          linked τ1 /\ open_within A' τ1 /\ dom (heap τ1) = dom (heap τ)).
        { simpl. unfold dispatch_unsubscribe.
          rewrite (bind_Ok _ _ _ _ _ (read_eq _ _ _ Hc)).
          destruct o as [sc|o].
          - by apply (IH A' τ c sc).
          - destruct (f_unsubscribe o) as [f|].
            + destruct (invoke_function_quiet code (handlers_at code d) f c τ
                          Hquiet) as (r & Hr).
              exists (add_event (c, f) τ), r. done.
            + exists τ, (Throw TypeError). done. }
        destruct Hcall as (τ1 & r & Hcall & Hl1 & Ho1 & Hd1).
        destruct (IHrest τ1) as (rs & τ' & Hruns & Hl' & Ho' & Hd');
          [|done|done|].
        { intros c' Hc'. apply elem_of_dom. rewrite Hd1. apply elem_of_dom.
          apply Hsubs. by right. }
        exists (r :: rs), τ'. split; [by econstructor|].
        split; [done|]. split; [done|]. by rewrite Hd', Hd1. }
    destruct (Hloop (children s) σ1) as (rs & σ' & Hruns & Hl' & Ho' & Hd').
    { intros c Hc. rewrite Hheap1. apply elem_of_dom. rewrite Hdom0.
      apply elem_of_dom. by eapply Hlink. }
    { intros l sl c. rewrite Hheap1. by apply linked_unsubscribed. }
    { intros l sl. rewrite Hheap1. by apply open_within_unsubscribed. }
    eexists σ', _. split.
    + apply (unsubscribe_open _ N s σ σ' _ HN Hs).
      exists σ1, r0, rs. split; [exact Hrun|]. split; [exact Hruns|reflexivity].
    + split; [done|]. split.
      * intros l sl Hl Hsl. specialize (Ho' l sl Hl Hsl).
        by apply elem_of_difference in Ho' as [? _].
      * by rewrite Hd', Hheap1.
Qed.
End Quiet.

(** X11.  If no callback calls back into the subscriptions, [unsubscribe]
    returns on every subscription of every heap without dangling children,
    also when the subscriptions are each other's children in a cycle: a
    depth of nested calls equal to the number of objects is enough. *)
Theorem unsubscribe_terminates (code : fid -> list stmt) (depth : nat)
  (N : loc) (s : Subscription) (σ : state) :
  quiet code ->
  linked σ ->
  heap σ !! N = Some (OSub s) ->
  (size (dom (heap σ)) <= depth)%nat ->
  exists σ' r, unsubscribe (handlers_at code depth) N σ = Some (σ', r).
Proof.
  intros Hq Hlink HN Hdepth.
  destruct (unsubscribe_quiet code Hq (size (dom (heap σ))) (dom (heap σ))
              σ N s) as (σ' & r & H & _); try done.
  { intros l sl Hl _. apply elem_of_dom. eauto. }
  exists σ', r.
  by apply (unsubscribe_le _ _ (handlers_at_le code _ _ Hdepth) N σ (σ', r)).
Qed.

Lemma unsubscribe_terminates_witness :
  exists σ' r,
    unsubscribe (handlers_at ex_quiet (size (dom (heap ex_cycle))))
      2%positive ex_cycle = Some (σ', r).
Proof.
  refine (unsubscribe_terminates ex_quiet _ 2%positive
            {| isUnsubscribed := false; _unsubscribe := Some 0%nat;
               _subscriptions := Some [3%positive] |}
            ex_cycle _ (linkedb_sound ex_cycle eq_refl) eq_refl (le_n _)).
  intros [|[|f]]; reflexivity.
Defined.

(** Each of the two is unsubscribed once, and the call ends. *)
Example ex_cycle_unsubscribe :
  observe (unsubscribe (handlers_at ex_quiet 3) 2%positive ex_cycle)
  = Some ([(2%positive, 0%nat); (3%positive, 1%nat)],
          Throw (UnsubscriptionError [UserError 10])).
Proof. vm_compute. reflexivity. Qed.

(** ** The states a client can reach *)

Lemma wf_object σ o :
  wf σ -> wf (set_object (fresh (dom (heap σ))) (OForeign o) σ).
Proof.
  assert (Hfresh : heap σ !! fresh (dom (heap σ)) = None).
  { apply not_elem_of_dom, is_fresh. }
  intros [(e & He & Hec) Hc Hs Hn]. split; simpl.
  - rewrite lookup_insert_ne by congruence. eauto.
  - intros l s. destruct (decide (fresh (dom (heap σ)) = l)) as [<-|Hne].
    + by rewrite lookup_insert_eq.
    + rewrite lookup_insert_ne by done. apply Hc.
  - intros l s. destruct (decide (fresh (dom (heap σ)) = l)) as [<-|Hne].
    + by rewrite lookup_insert_eq.
    + rewrite lookup_insert_ne by done. apply Hs.
  - intros l s. destruct (decide (fresh (dom (heap σ)) = l)) as [<-|Hne].
    + by rewrite lookup_insert_eq.
    + rewrite lookup_insert_ne by done. apply Hn.
Qed.

(** X10.  In every state a client can reach, whatever its callbacks do: no
    subscription is among its own children, [EMPTY] is among nobody's
    children, [EMPTY] has its flag set, and a subscription whose flag is set
    has no children. *)
Theorem reachable_well_formed (code : fid -> list stmt) (σ : state) :
  reachable code σ -> wf σ.
Proof.
  induction 1 as [|σ f _ IH|σ o _ IH|σ depth op N σ' r _ IH HN H].
  - apply wf_initial.
  - by apply wf_alloc.
  - by apply wf_object.
  - by apply (perform_wf code depth op N σ σ' r).
Qed.

Lemma reachable_well_formed_witness : wf ex_reentrant_done.
Proof.
  exact (reachable_well_formed ex_code ex_reentrant_done
           (reach_perform ex_code ex_reentrant 3 Unsubscribe 2%positive
              ex_reentrant_done (Ok tt)
              (reach_new ex_code initial_state (Some 5%nat)
                 (reach_initial ex_code))
              (mk_is_Some _ _ eq_refl) eq_refl)).
Defined.

(** * Further properties of the array producer *)

(** X12.  An observer that is disposed when [subscriber] is called gets no
    element, whatever the array is, but [return] is still called on it. *)
Theorem subscriber_disposed_observer {W} `{Observer W} (w : W) :
  disposed w = true ->
  subscriber w = return_ w.
Proof.
  intros Hd. unfold subscriber. destruct (isArray w); [|done].
  destruct (length (elements w)); simpl; [done|]. by rewrite Hd.
Qed.

Lemma subscriber_disposed_observer_witness :
  subscriber {| habit := Steady; items := [VNum 1; VNum 2];
                seen := []; budget := Some 0%nat |}
  = return_ {| habit := Steady; items := [VNum 1; VNum 2];
               seen := []; budget := Some 0%nat |}.
Proof.
  exact (subscriber_disposed_observer
           {| habit := Steady; items := [VNum 1; VNum 2];
              seen := []; budget := Some 0%nat |} eq_refl).
Defined.

(** X13.  Let the observer stay in a set of states in which it is not
    disposed and in which [next] returns normally and leaves the producer's
    array as it is.  Then [subscriber] gives it every element of the array,
    in the order of the indices, and ends as the call of [return] that
    follows ends. *)
Theorem subscriber_emits_all {W} `{Observer W} (I : W -> Prop) (w : W) :
  (forall u, I u -> disposed u = false) ->
  (forall v u, I u ->
     exists u', next v u = Normal u' /\ I u' /\ elements u' = elements u) ->
  I w ->
  isArray w = true ->
  exists wn, deliver (elements w) w = Normal wn /\
             subscriber w = return_ wn.
Proof.
  intros Hopen Hnext HI Harr. unfold subscriber. rewrite Harr.
  assert (Hloop : forall n i u,
    I u -> elements u = elements w -> (i + n = length (elements w))%nat ->
    exists wn, deliver (drop i (elements w)) u = Normal wn /\
               subscriber_loop n i u = Normal wn).
  { induction n as [|n IH]; intros i u Hu Hel Hlen; simpl.
    - exists u. rewrite drop_ge by lia. done.
    - destruct (lookup_lt_is_Some_2 (elements w) i) as [x Hx]; [lia|].
      rewrite (Hopen u Hu), Hel, (nth_lookup_Some _ _ _ _ Hx),
        (drop_S _ _ _ Hx). simpl.
      destruct (Hnext x u Hu) as (u' & -> & Hu' & Hel').
      apply IH; [done|congruence|lia]. }
  destruct (Hloop (length (elements w)) 0%nat w HI eq_refl) as (wn & Hd & ->);
    [lia|].
  exists wn. by rewrite drop_0 in Hd.
Qed.

Lemma subscriber_emits_all_witness :
  exists wn,
    deliver [VNum 1; VNum 2]
      {| habit := Steady; items := [VNum 1; VNum 2];
         seen := []; budget := None |} = Normal wn /\
    subscriber {| habit := Steady; items := [VNum 1; VNum 2];
                  seen := []; budget := None |} = return_ wn.
Proof.
  refine (subscriber_emits_all
            (fun u => habit u = Steady /\ budget u = None)
            {| habit := Steady; items := [VNum 1; VNum 2];
               seen := []; budget := None |} _ _ (conj eq_refl eq_refl)
            eq_refl).
  - intros u [_ Hb]. simpl. by rewrite Hb.
  - intros v u [Hh Hb]. simpl. rewrite Hh. eexists. split; [reflexivity|].
    simpl. by rewrite Hb.
Defined.
